(** * museums: harvesting and geocoding pipeline

    A shallow embedding of [museums.py] (the Harvester) and
    [make_museums_map.py] (the Enricher), with the properties of the
    specification stated over it.

    Conventions of the embedding.
    - Python exceptions are values of [exn]; a computation that may raise
      returns a [result].
    - The Enricher runs in a monad [M] of state, exceptions and events.
      The state is the outside world as the script sees it: the
      resolution service behind [session.get], the files on disk, and the
      dictionary object [geocode_cache] that [main] and [geocode_address]
      share.  The events are what can be observed of a run, in order:
      requests and their answers, sleeps, file writes, markers, log lines.
    - Library code that is not part of the repository is taken as an
      interface: Python's [float] ([PyFloat]), the resolution service
      ([Service]) and [json.load]/[json.dump] on the two persisted
      documents ([JsonCodec]).  The [requests] library is the current one
      (2.27 or later).
    - The JSON parser ends in one of four ways ([parsed]): a value, its
      [JSONDecodeError], [RecursionError] or a plain [ValueError]; only
      the second is what the scripts catch.
    - The two persisted documents are typed.  A record is a harvested
      museum: [location] is always a string, as the Harvester writes it;
      a file that holds valid JSON holds a list of such records
      ([museums.json]) or a dictionary from addresses to pairs (the cache
      file).  What the scripts do with valid JSON of another shape is
      outside the embedding.  Writing a file is assumed to succeed.
    - Of the map are kept: the markers handed over, that [folium.Marker]
      refuses a location with a NaN in it, and the text of the popups
      ([build_popup_html]). *)

From Stdlib Require Import ZArith QArith String Ascii List.
From Stdlib.Strings Require Import Byte.
From Stdlib Require Import Decimal DecimalNat DecimalString.
From stdpp Require Import gmap strings list.

Set Warnings "-register-all".

Local Open Scope string_scope.
Local Open Scope list_scope.

(* ===================================================================== *)
(** * Python values, exceptions                                           *)
(* ===================================================================== *)

(** The exceptions that the two scripts can meet. *)
Inductive exn : Type :=
  | ConnectionError             (* requests: transport failure, timeout *)
  | HTTPError                   (* requests: resp.raise_for_status() *)
  | RequestsJSONDecodeError     (* requests: resp.json() on a non-JSON body *)
  | UnicodeDecodeError          (* text-mode read of bytes that are not UTF-8 *)
  | RecursionError              (* the JSON parser on a text nested too deep *)
  | KeyError
  | IndexError
  | TypeError
  | ValueError
  | OverflowError
  | AttributeError
  | NoSuchElementException      (* selenium *)
  | ElementClickInterceptedException
  | WebDriverException.         (* selenium: any other driver error *)

(** [isinstance(e, requests.RequestException)].  In requests (2.27 and
    later) the error of [resp.json()] derives from [RequestException]. *)
Definition is_RequestException (e : exn) : bool :=
  match e with
  | ConnectionError | HTTPError | RequestsJSONDecodeError => true
  | _ => false
  end.

Inductive result (A : Type) : Type :=
  | Ok (a : A)
  | Raise (e : exn).
Arguments Ok {A} a.
Arguments Raise {A} e.

Definition is_Ok {A} (r : result A) : bool :=
  match r with Ok _ => true | Raise _ => false end.

(** Python's [float(...)] on ints and strings, and the truth value of a
    float.  [None] stands for the exception the conversion raises. *)
Class PyFloat (float : Type) : Type := {
  float_of_int : Z -> option float;       (* None: OverflowError *)
  float_of_str : string -> option float;  (* None: ValueError *)
  float_truthy : float -> bool;           (* bool(x), false for 0.0 *)
  float_is_nan : float -> bool            (* math.isnan(x) *)
}.

(** What Python's JSON parser makes of a text: the value, or
    [json.JSONDecodeError] for a text that is not JSON, or one of the two
    other exceptions it can raise, which are no [JSONDecodeError]:
    [RecursionError] on a text nested too deep (on a few thousand opening
    brackets, say) and a plain [ValueError] on an integer with more
    digits than the interpreter's limit. *)
Inductive parsed (A : Type) : Type :=
  | Parsed (a : A)
  | NotJson
  | TooDeep
  | TooManyDigits.
Arguments Parsed {A} a.
Arguments NotJson {A}.
Arguments TooDeep {A}.
Arguments TooManyDigits {A}.

(** [json.load]/[json.dump] on a persisted document of type [A].  The
    embedding is typed: a text that is valid JSON is taken to hold a
    document of type [A]; valid JSON of another shape is not covered. *)
Class JsonCodec (A : Type) : Type := {
  json_load : string -> parsed A;
  json_dump : A -> string
}.

Section Values.

Context {float : Type} `{!PyFloat float}.

(** What [resp.json()] can return. An object holds the items of the
    parsed dict, whose keys are distinct. *)
Inductive json : Type :=
  | JNull
  | JBool (b : bool)
  | JInt (z : Z)
  | JFloat (f : float)
  | JStr (s : string)
  | JArr (l : list json)
  | JObj (items : list (string * json)).

(** [bool(v)] *)
Definition truthy (v : json) : bool :=
  match v with
  | JNull => false
  | JBool b => b
  | JInt z => negb (z =? 0)%Z
  | JFloat f => float_truthy f
  | JStr s => negb (String.eqb s "")
  | JArr l => match l with [] => false | _ => true end
  | JObj items => match items with [] => false | _ => true end
  end.

(** [v[0]] *)
Definition getitem_0 (v : json) : result json :=
  match v with
  | JArr (x :: _) => Ok x
  | JArr [] => Raise IndexError
  | JObj _ => Raise KeyError
  | JStr (String c _) => Ok (JStr (String c ""))
  | JStr EmptyString => Raise IndexError
  | JNull | JBool _ | JInt _ | JFloat _ => Raise TypeError
  end.

Fixpoint dict_get (k : string) (items : list (string * json)) : option json :=
  match items with
  | [] => None
  | (k', v) :: rest => if String.eqb k k' then Some v else dict_get k rest
  end.

(** [v[k]] for a string key [k] *)
Definition getitem_str (k : string) (v : json) : result json :=
  match v with
  | JObj items =>
      match dict_get k items with
      | Some x => Ok x
      | None => Raise KeyError
      end
  | _ => Raise TypeError
  end.

(** [float(v)] *)
Definition py_float (v : json) : result float :=
  match v with
  | JFloat f => Ok f
  | JInt z =>
      match float_of_int z with Some f => Ok f | None => Raise OverflowError end
  | JBool b =>
      match float_of_int (if b then 1 else 0)%Z with
      | Some f => Ok f | None => Raise OverflowError end
  | JStr s =>
      match float_of_str s with Some f => Ok f | None => Raise ValueError end
  | JNull | JArr _ | JObj _ => Raise TypeError
  end.

(** A pair [(lat, lon)] as the Enricher passes it around: each component
    is a float or [None]. *)
Definition coords : Type := (option float * option float)%type.

(** [coords == (None, None)] *)
Definition is_none_pair (c : coords) : bool :=
  match c with
  | (None, None) => true
  | _ => false
  end.

(** One museum of [museums.json].  [latitude] and [longitude] are
    [None] when the key is absent, [Some None] when it holds [null]. *)
Record record : Type := {
  name : string;
  thumbnail : option string;
  link : string;
  location : string;
  latitude : option (option float);
  longitude : option (option float)
}.

(** [item.get("latitude")] *)
Definition get_latitude (r : record) : option float :=
  match latitude r with Some v => v | None => None end.
Definition get_longitude (r : record) : option float :=
  match longitude r with Some v => v | None => None end.

(** [item["latitude"] = lat; item["longitude"] = lon] *)
Definition set_coords (r : record) (c : coords) : record :=
  {| name := name r; thumbnail := thumbnail r; link := link r;
     location := location r;
     latitude := Some (fst c); longitude := Some (snd c) |}.

(** The record invariant: latitude and longitude are both present or
    both missing (absent or null). *)
Definition pair_ok (c : coords) : bool :=
  match c with
  | (Some _, Some _) | (None, None) => true
  | _ => false
  end.

Definition record_ok (r : record) : bool :=
  pair_ok (get_latitude r, get_longitude r).

End Values.

Arguments json float : clear implicits.
Arguments coords float : clear implicits.
Arguments record float : clear implicits.

(* ===================================================================== *)
(** * PersistedStore: files, [load_json], [save_json]                     *)
(* ===================================================================== *)

(** The files on disk: a path is absent or holds bytes. *)
Abbreviation files := (gmap string (list byte)).

Definition in_range (lo hi n : N) : bool := ((lo <=? n) && (n <=? hi))%N.

(** A continuation byte, 0x80..0xBF. *)
Definition utf8_cont (b : byte) : bool := in_range 128 191 (Byte.to_N b).

(** Whether the bytes are well-formed UTF-8 (one to four byte sequences,
    no overlong forms, no surrogates): whether reading the file opened
    with [encoding="utf-8"] succeeds. *)
Fixpoint utf8_valid (bs : list byte) : bool :=
  match bs with
  | [] => true
  | b0 :: r0 =>
      let n0 := Byte.to_N b0 in
      if (n0 <=? 127)%N then utf8_valid r0 else
      match r0 with
      | [] => false
      | b1 :: r1 =>
          let n1 := Byte.to_N b1 in
          if in_range 194 223 n0 then utf8_cont b1 && utf8_valid r1 else
          match r1 with
          | [] => false
          | b2 :: r2 =>
              if in_range 224 239 n0 then
                (if (n0 =? 224)%N then in_range 160 191 n1
                 else if (n0 =? 237)%N then in_range 128 159 n1
                 else utf8_cont b1)
                && utf8_cont b2 && utf8_valid r2
              else
              match r2 with
              | [] => false
              | b3 :: r3 =>
                  if in_range 240 244 n0 then
                    (if (n0 =? 240)%N then in_range 144 191 n1
                     else if (n0 =? 244)%N then in_range 128 143 n1
                     else utf8_cont b1)
                    && utf8_cont b2 && utf8_cont b3 && utf8_valid r3
                  else false
              end
          end
      end
  end.

Section Store.

Context {A : Type} `{!JsonCodec A}.

(** [load_json(path, default)].  The file is opened in text mode with
    [encoding="utf-8"]; [json.load] reads it, which raises
    [UnicodeDecodeError] on bytes that are not UTF-8, and then parses.
    Of the exceptions of the parser only [json.JSONDecodeError] is
    caught. *)
Definition load_json (fs : files) (path : string) (default : A) : result A :=
  match fs !! path with
  | Some bytes =>
      if utf8_valid bytes then
        match json_load (string_of_list_byte bytes) with
        | Parsed v => Ok v
        | NotJson => Ok default
        | TooDeep => Raise RecursionError
        | TooManyDigits => Raise ValueError
        end
      else Raise UnicodeDecodeError
  | None => Ok default
  end.

(** [save_json(path, obj)]: the whole value is serialised and overwrites
    the file. *)
Definition save_json (fs : files) (path : string) (obj : A) : files :=
  <[path := list_byte_of_string (json_dump obj)]> fs.

End Store.

(* ===================================================================== *)
(** * The outside world                                                   *)
(* ===================================================================== *)

(** A response of the resolution service.  [body] is what the JSON
    parser makes of the body when [resp.json()] is called. *)
Record response (float : Type) : Type := {
  status_code : Z;
  body : parsed (json float)
}.
Arguments status_code {float} r.
Arguments body {float} r.

(** What one [session.get(url, params, headers, timeout=20)] does: it
    raises a [RequestException] (connection error, timeout, ...) or
    returns a response. *)
Inductive get_outcome (float : Type) : Type :=
  | GetRaises
  | GetResponse (resp : response float).
Arguments GetRaises {float}.
Arguments GetResponse {float} resp.

(** The resolution service, in a state [W] that a request may change. *)
Class Service (float W : Type) : Type := {
  session_get : W -> string -> get_outcome float * W
}.

Inductive log_line : Type :=
  | LogNoData                       (* "No data found in museums.json." *)
  | LogAdded (name : string)        (* "Added: {name}" *)
  | LogMapSaved                     (* "Map saved to museums_map.html" *)
  | LogLoadingMore                  (* "Loading more museums..." *)
  | LogNoMore                       (* "No more museums to load." *)
  | LogRetryClick                   (* "Could not click 'Laad meer' ..." *)
  | LogFound (n : nat)              (* "Found {n} museum cards. ..." *)
  | LogScraped (i n : nat) (name location : string)
  | LogError (i n : nat) (e : exn)  (* "Error scraping card: {e}" *)
  | LogDone (n : nat).

(** Externally visible events, in the order they happen. *)
Inductive event (float : Type) : Type :=
  | EvGet (q : string) (o : get_outcome float)
      (* session.get(..., params={"q": q}) and what came back *)
  | EvSleep (seconds : Q)           (* time.sleep(seconds) *)
  | EvSaveCache (c : gmap string (coords float))
  | EvSaveMuseums (l : list (record float))
  | EvMarker (i : nat) (r : record float)   (* a marker added to the map *)
  | EvFetch (url : string)          (* requests.get(url) *)
  | EvSaveMap                       (* fmap.save(OUTPUT_HTML) *)
  | EvPrint (l : log_line).
Arguments EvGet {float} q o.
Arguments EvSleep {float} seconds.
Arguments EvSaveCache {float} c.
Arguments EvSaveMuseums {float} l.
Arguments EvMarker {float} i r.
Arguments EvFetch {float} url.
Arguments EvSaveMap {float}.
Arguments EvPrint {float} l.

(** The queries sent to the resolution service, in order. *)
Definition gets {float} (t : list (event float)) : list string :=
  omap (fun e => match e with EvGet q _ => Some q | _ => None end) t.

(** What the resolution service answered, in order. *)
Definition outcomes {float} (t : list (event float))
    : list (get_outcome float) :=
  omap (fun e => match e with EvGet _ o => Some o | _ => None end) t.

(* ===================================================================== *)
(** * Enricher: [make_museums_map.py]                                     *)
(* ===================================================================== *)

Definition INPUT_JSON : string := "museums.json".
Definition CACHE_JSON : string := "geocode_cache.json".
Definition GEOCODE_SLEEP_SECONDS : Q := 1.2.
Definition RETRY_BACKOFF_SECONDS : Q := 5.
Definition COUNTRY_SUFFIX : string := ", Netherlands".

(** What the Enricher reads and changes: the service behind [session],
    the files, and the dict object [geocode_cache]. *)
Record state (float W : Type) : Type := {
  net : W;
  fs : files;
  geocode_cache : gmap string (coords float)
}.
Arguments net {float W} s.
Arguments fs {float W} s.
Arguments geocode_cache {float W} s.

Section Enricher.

Context {float : Type} `{!PyFloat float}.
Context {W : Type} `{!Service float W}.
Context `{!JsonCodec (list (record float))}.
Context `{!JsonCodec (gmap string (coords float))}.

#[local] Abbreviation state := (state float W).
#[local] Abbreviation coords := (coords float).
#[local] Abbreviation record := (record float).
#[local] Abbreviation event := (event float).
#[local] Abbreviation json := (json float).

Definition with_net (s : state) (w : W) : state :=
  {| net := w; fs := fs s; geocode_cache := geocode_cache s |}.

Definition with_fs (s : state) (f : files) : state :=
  {| net := net s; fs := f; geocode_cache := geocode_cache s |}.

(** State, exceptions and events: a computation maps a state to a
    result, the state it leaves (also when it raises) and the events it
    emitted. *)
Definition M (A : Type) : Type := state -> result A * state * list event.

Definition ret {A} (a : A) : M A := fun s => (Ok a, s, []).

Definition raise {A} (e : exn) : M A := fun s => (Raise e, s, []).

Definition bind {A B} (m : M A) (k : A -> M B) : M B :=
  fun s =>
    match m s with
    | (Ok a, s1, t1) =>
        match k a s1 with
        | (r, s2, t2) => (r, s2, t1 ++ t2)
        end
    | (Raise e, s1, t1) => (Raise e, s1, t1)
    end.

(** What [except requests.RequestException: return c] makes of the
    result of the [try] block. *)
Definition except_RequestException {A} (c : A) (r : result A) : result A :=
  match r with
  | Ok a => Ok a
  | Raise e => if is_RequestException e then Ok c else Raise e
  end.

(** [try: m except requests.RequestException: return c] *)
Definition try_except_RequestException {A} (m : M A) (c : A) : M A :=
  fun s =>
    match m s with
    | (r, s1, t1) => (except_RequestException c r, s1, t1)
    end.

Definition lift {A} (r : result A) : M A := fun s => (r, s, []).

Definition emit (e : event) : M unit := fun s => (Ok tt, s, [e]).

Definition sleep (seconds : Q) : M unit := emit (EvSleep seconds).

Definition print (l : log_line) : M unit := emit (EvPrint l).

Notation "x <- m ;; k" := (bind m (fun x => k))
  (at level 100, m at next level, right associativity).
Notation "m ;;; k" := (bind m (fun _ => k))
  (at level 100, right associativity).

(** [session.get(url, params={"q": query, ...}, headers, timeout=20)] *)
Definition get (query : string) : M (response float) :=
  fun s =>
    let (o, w) := session_get (net s) query in
    match o with
    | GetRaises => (Raise ConnectionError, with_net s w, [EvGet query o])
    | GetResponse resp => (Ok resp, with_net s w, [EvGet query o])
    end.

(** [resp.raise_for_status()]: 4xx and 5xx raise [HTTPError]. *)
Definition raise_for_status (resp : response float) : result unit :=
  if ((400 <=? status_code resp) && (status_code resp <? 600))%Z
  then Raise HTTPError else Ok tt.

(** [resp.json()]: the [json.JSONDecodeError] of the parser is raised
    again as the [JSONDecodeError] of [requests], its other exceptions
    pass as they are. *)
Definition resp_json (resp : response float) : result json :=
  match body resp with
  | Parsed data => Ok data
  | NotJson => Raise RequestsJSONDecodeError
  | TooDeep => Raise RecursionError
  | TooManyDigits => Raise ValueError
  end.

(** [float(data[0][k])] *)
Definition float_field (data : json) (k : string) : result float :=
  match getitem_0 data with
  | Raise e => Raise e
  | Ok d =>
      match getitem_str k d with
      | Raise e => Raise e
      | Ok v => py_float v
      end
  end.

(** Lines 65 to 71 of [_geocode_nominatim]: from the response to the
    pair, or to the exception raised on the way. *)
Definition read_response (resp : response float) : result coords :=
  match raise_for_status resp with
  | Raise e => Raise e
  | Ok _ =>
      match resp_json resp with
      | Raise e => Raise e
      | Ok data =>
          if negb (truthy data) then Ok (None, None) else
          match float_field data "lat" with
          | Raise e => Raise e
          | Ok lat =>
              match float_field data "lon" with
              | Raise e => Raise e
              | Ok lon => Ok (Some lat, Some lon)
              end
          end
      end
  end.

Definition _geocode_nominatim (query : string) : M coords :=
  try_except_RequestException
    (resp <- get query ;;
     resp <- (if (status_code resp =? 429)%Z
              then sleep RETRY_BACKOFF_SECONDS ;;; get query
              else ret resp) ;;
     lift (read_response resp))
    (None, None).

(** [cache[address] = coords] *)
Definition cache_set (address : string) (c : coords) : M unit :=
  fun s =>
    (Ok tt,
     {| net := net s; fs := fs s;
        geocode_cache := <[address := c]> (geocode_cache s) |},
     []).

(** [save_json(CACHE_JSON, cache)] *)
Definition save_cache : M unit :=
  fun s =>
    (Ok tt,
     {| net := net s;
        fs := save_json (fs s) CACHE_JSON (geocode_cache s);
        geocode_cache := geocode_cache s |},
     [EvSaveCache (geocode_cache s)]).

(** [save_json(INPUT_JSON, museums)] *)
Definition save_museums (museums : list record) : M unit :=
  fun s =>
    (Ok tt,
     {| net := net s;
        fs := save_json (fs s) INPUT_JSON museums;
        geocode_cache := geocode_cache s |},
     [EvSaveMuseums museums]).

Definition geocode_address (address : string) : M coords :=
  if String.eqb address "" then ret (None, None) else
  fun s =>
    match geocode_cache s !! address with
    | Some c => ret c s
    | None =>
        (c <- _geocode_nominatim address ;;
         c <- (if is_none_pair c
               then _geocode_nominatim (address ++ COUNTRY_SUFFIX)
               else ret c) ;;
         cache_set address c ;;;
         save_cache ;;;
         sleep GEOCODE_SLEEP_SECONDS ;;;
         ret c) s
    end.

(** [lat is None or lon is None] *)
Definition lacks_coords (lat lon : option float) : bool :=
  match lat, lon with
  | Some _, Some _ => false
  | _, _ => true
  end.

(** Whether [folium.Marker(location=(lat, lon), ...)] refuses the
    location: it raises [ValueError] when a coordinate is NaN. *)
Definition refused (lat lon : option float) : bool :=
  match lat, lon with
  | Some a, Some b => float_is_nan a || float_is_nan b
  | _, _ => false
  end.

(** One pass through the body of the [for] loop of [main], on the [i]-th
    record [item]; [done] are the records before it, as the loop left
    them, and [rest] those after it.  Returns [item] as the pass leaves
    it. *)
Definition enrich_item (i : nat) (done : list record) (item : record)
    (rest : list record) : M record :=
  let lat := get_latitude item in
  let lon := get_longitude item in
  r <- (if lacks_coords lat lon then
          c <- geocode_address (location item) ;;
          let item' := set_coords item c in
          save_museums (done ++ item' :: rest) ;;;
          ret (item', c)
        else ret (item, (lat, lon))) ;;
  let '(item', (lat, lon)) := r in
  if lacks_coords lat lon then ret item'
  else if refused lat lon then raise ValueError
  else
    emit (EvMarker i item') ;;;
    print (LogAdded (name item')) ;;;
    ret item'.

(** The [for i, item in enumerate(museums, start=1)] loop of [main]:
    the Enricher proper.  Returns the list [museums] as the loop leaves
    it. *)
Fixpoint enrich_from (i : nat) (done todo : list record) : M (list record) :=
  match todo with
  | [] => ret done
  | item :: rest =>
      item' <- enrich_item i done item rest ;;
      enrich_from (S i) (done ++ [item']) rest
  end.

Definition enrich (museums : list record) : M (list record) :=
  enrich_from 1 [] museums.

(** [main()], run on the files [fs0] with the service in state [w].  The
    map itself is left out: of the rendering only the markers handed
    over and the final write are kept, as events. *)
Definition main (w : W) (fs0 : files)
    : result (list record) * state * list event :=
  let s0 := {| net := w; fs := fs0; geocode_cache := ∅ |} in
  match load_json fs0 INPUT_JSON [] with
  | Raise e => (Raise e, s0, [])
  | Ok [] => (print LogNoData ;;; ret []) s0
  | Ok museums =>
      match load_json fs0 CACHE_JSON ∅ with
      | Raise e => (Raise e, s0, [])
      | Ok cache =>
          (museums' <- enrich museums ;;
           emit EvSaveMap ;;;
           print LogMapSaved ;;;
           ret museums')
            {| net := w; fs := fs0; geocode_cache := cache |}
      end
  end.

(** ** Vocabulary of the properties *)

(** What the attempt makes of the last answer it got. *)
Definition verdict (o : get_outcome float) : result coords :=
  match o with
  | GetRaises => Ok (None, None)
  | GetResponse resp => except_RequestException (None, None) (read_response resp)
  end.

(** The state after [cache[address] = c] and [save_json(CACHE_JSON,
    cache)]. *)
Definition stored (address : string) (c : coords) (s : state) : state :=
  {| net := net s;
     fs := save_json (fs s) CACHE_JSON (<[address := c]> (geocode_cache s));
     geocode_cache := <[address := c]> (geocode_cache s) |}.

(** The files after the writes of a trace, in order. *)
Fixpoint replay (t : list event) (f : files) : files :=
  match t with
  | [] => f
  | EvSaveCache c :: t' => replay t' (save_json f CACHE_JSON c)
  | EvSaveMuseums l :: t' => replay t' (save_json f INPUT_JSON l)
  | _ :: t' => replay t' f
  end.

(** A computation that does not look at the files: run on other files
    it does the same, and leaves those files with its writes replayed. *)
Definition blind {A} (m : M A) : Prop :=
  forall (s : state) (f : files),
    m (with_fs s f) =
    match m s with
    | (r, s', t) => (r, with_fs s' (replay t f), t)
    end.

(** A record that carries both coordinates. *)
Definition has_coords (r : record) : Prop :=
  lacks_coords (get_latitude r) (get_longitude r) = false.

(** Every list of records written to [museums.json] in the trace keeps
    the record invariant. *)
Definition saves_ok (t : list event) : Prop :=
  forall l, In (EvSaveMuseums l) t -> Forall (fun r => record_ok r = true) l.

(** The events of handing a record with coordinates to the map. *)
Definition marker (i : nat) (r : record) : list event :=
  [EvMarker i r; EvPrint (LogAdded (name r))].

(** How a pass of the loop ends for the record [r] with the pair [c]:
    nothing more without coordinates, [ValueError] when the map refuses
    the location, the marker otherwise. *)
Definition handed (i : nat) (r : record) (c : coords)
    : result record * list event :=
  if lacks_coords (fst c) (snd c) then (Ok r, [])
  else if refused (fst c) (snd c) then (Raise ValueError, [])
  else (Ok r, marker i r).

(** An answer of the service that is a failure: a transport failure, an
    error status (the throttling status is one), or a body that the
    parser rejects with [json.JSONDecodeError]. *)
Definition failure (o : get_outcome float) : bool :=
  match o with
  | GetRaises => true
  | GetResponse resp =>
      ((400 <=? status_code resp) && (status_code resp <? 600))%Z
      || match body resp with NotJson => true | _ => false end
  end.

(** A JSON body that [_geocode_nominatim] reads without raising: a falsy
    value (no match), or a list whose first item is an object with
    [lat] and [lon] that [float] accepts. *)
Definition readable (data : json) : bool :=
  negb (truthy data)
  || match data with
     | JArr (JObj items :: _) =>
         match dict_get "lat" items, dict_get "lon" items with
         | Some lat, Some lon => is_Ok (py_float lat) && is_Ok (py_float lon)
         | _, _ => false
         end
     | _ => false
     end.

(** An answer that does not make [_geocode_nominatim] raise. *)
Definition tolerated (o : get_outcome float) : bool :=
  failure o
  || match o with
     | GetResponse resp =>
         match body resp with Parsed data => readable data | _ => false end
     | GetRaises => false
     end.

(** Every entry of the cache is a full pair or a pair of [None]. *)
Definition cache_ok (c : gmap string coords) : Prop :=
  forall address v, c !! address = Some v -> pair_ok v = true.

(** What a lookup of [address] gives without asking the service. *)
Definition known (c : gmap string coords) (address : string) (v : coords)
    : Prop :=
  if String.eqb address "" then v = (None, None) else c !! address = Some v.

(** A record that a run of the Enricher leaves alone, given the cache:
    it carries coordinates, or it carries what the cache knows of its
    address. *)
Definition settled (c : gmap string coords) (r : record) : Prop :=
  lacks_coords (get_latitude r) (get_longitude r) = false \/
  exists v, r = set_coords r v /\ known c (location r) v.

End Enricher.

Declare Scope monad_scope.
Delimit Scope monad_scope with M.
Notation "x <- m ;; k" := (bind m (fun x => k))
  (at level 100, m at next level, right associativity) : monad_scope.
Notation "m ;;; k" := (bind m (fun _ => k))
  (at level 100, right associativity) : monad_scope.

(* ===================================================================== *)
(** * Harvester: [museums.py]                                             *)
(* ===================================================================== *)

Definition output_file : string := "museums.json".
Definition SITE : string := "https://www.museum.nl".
Definition UNKNOWN : string := "Unknown".

(** What one pass through the [try] block of the "Laad meer" loop does:
    the button is found and clicked, or one of the selenium calls
    raises. *)
Inductive attempt : Type :=
  | Clicked
  | ButtonAbsent          (* NoSuchElementException *)
  | ClickIntercepted      (* ElementClickInterceptedException *)
  | DriverError.          (* any other exception: not caught *)

(** A listing card as the loop reads it: the [href] of its first [a]
    and the [src] of its first [img].  The outer [None] is an element
    that is not there, the inner one an attribute that is not there. *)
Record card : Type := {
  a_href : option (option string);
  img_src : option (option string)
}.

(** A detail page as the loop reads it: the stripped text of the first
    [h1], and the text of the address block of the practical-info section
    once its [a], [svg], [strong] and [span] children are removed; [None]
    when the element is not on the page. *)
Record page : Type := {
  h1 : option string;
  address : option string
}.

Section Harvester.

Context {float : Type}.
Context `{!JsonCodec (list (record float))}.

#[local] Abbreviation record := (record float).
#[local] Abbreviation event := (event float).

(** The pages behind [requests.get]: [None] when the request raises. *)
Variable web : string -> option page.

(** The [while True] loop that clicks "Laad meer".  [browser n] is what
    the [n]-th pass through the [try] block meets; the loop itself has
    no bound, so the model runs it for at most [fuel] passes and gives
    [None] when the loop is still running after them. *)
Fixpoint load_more (fuel : nat) (browser : nat -> attempt) (n : nat)
    (t : list event) : option (result unit * list event) :=
  match fuel with
  | O => None
  | S fuel' =>
      match browser n with
      | Clicked =>
          load_more fuel' browser (S n)
            (t ++ [EvPrint LogLoadingMore; EvSleep 3])
      | ButtonAbsent => Some (Ok tt, t ++ [EvPrint LogNoMore])
      | ClickIntercepted =>
          load_more fuel' browser (S n)
            (t ++ [EvPrint LogRetryClick; EvSleep 2])
      | DriverError => Some (Raise WebDriverException, t)
      end
  end.

(** The extraction part of the [try] block of the card loop, up to
    [museum_data]. *)
Definition extract (c : card) : result record * list event :=
  match a_href c with
  | None => (Raise NoSuchElementException, [])
  | Some None => (Raise AttributeError, [])
  | Some (Some partial_link) =>
      let link :=
        if String.prefix "/" partial_link then (SITE ++ partial_link)%string
        else partial_link in
      match web link with
      | None => (Raise ConnectionError, [EvFetch link])
      | Some soup =>
          let name := match h1 soup with Some t => t | None => UNKNOWN end in
          match img_src c with
          | None => (Raise NoSuchElementException, [EvFetch link])
          | Some thumbnail =>
              let location :=
                match address soup with Some a => a | None => UNKNOWN end in
              (Ok {| name := name; thumbnail := thumbnail; link := link;
                     location := location;
                     latitude := None; longitude := None |},
               [EvFetch link])
          end
      end
  end.

Record harvest_state : Type := {
  h_fs : files;
  museums : list record;
  h_trace : list event
}.

(** One pass through the body of the card loop: [try] the extraction,
    append, save and report; [except Exception] report the error. *)
Definition scrape_card (n i : nat) (c : card) (s : harvest_state)
    : harvest_state :=
  match extract c with
  | (Ok museum_data, evs) =>
      let museums' := museums s ++ [museum_data] in
      {| h_fs := save_json (h_fs s) output_file museums';
         museums := museums';
         h_trace := h_trace s ++ evs ++
           [EvSaveMuseums museums';
            EvPrint (LogScraped i n (name museum_data)
                                    (location museum_data))] |}
  | (Raise e, evs) =>
      {| h_fs := h_fs s; museums := museums s;
         h_trace := h_trace s ++ evs ++ [EvPrint (LogError i n e)] |}
  end.

(** [for i, card in enumerate(cards, start=1)], with [n = len(cards)]. *)
Fixpoint scrape_cards (n i : nat) (cards : list card) (s : harvest_state)
    : harvest_state :=
  match cards with
  | [] => s
  | c :: rest => scrape_cards n (S i) rest (scrape_card n i c s)
  end.

(** The resume step: [museums = []], replaced by the content of
    [museums.json] when the file exists and parses. *)
Definition resume (fs : files) : result (list record) :=
  match fs !! output_file with
  | Some bytes =>
      if utf8_valid bytes then
        match json_load (string_of_list_byte bytes) with
        | Parsed v => Ok v
        | NotJson => Ok []
        | TooDeep => Raise RecursionError
        | TooManyDigits => Raise ValueError
        end
      else Raise UnicodeDecodeError
  | None => Ok []
  end.

(** The script from [cards = ...] on: resume, scrape every card, report. *)
Definition harvest (cards : list card) (fs : files) (t : list event)
    : result harvest_state :=
  match resume fs with
  | Raise e => Raise e
  | Ok existing =>
      let n := length cards in
      let s := scrape_cards n 1 cards
                 {| h_fs := fs; museums := existing;
                    h_trace := t ++ [EvPrint (LogFound n)] |} in
      Ok {| h_fs := h_fs s; museums := museums s;
            h_trace := h_trace s ++ [EvPrint (LogDone (length (museums s)))] |}
  end.

(** [k] rounds of "could not click, retrying" and the two-second wait. *)
Fixpoint retries (k : nat) : list event :=
  match k with
  | O => []
  | S k' => EvPrint LogRetryClick :: EvSleep 2 :: retries k'
  end.

(** The records that the cards contribute: one for each card whose
    extraction does not raise. *)
Definition extracted (cards : list card) : list record :=
  omap (fun c => match extract c with
                 | (Ok r, _) => Some r
                 | (Raise _, _) => None
                 end) cards.

End Harvester.

(* ===================================================================== *)
(** * More vocabulary: what a run asks, writes and hands over             *)
(* ===================================================================== *)

Section RunVocabulary.

Context {float : Type}.

#[local] Abbreviation vrecord := (record float).
#[local] Abbreviation vevent := (event float).

(** The records the loop of [main] has to look up. *)
Definition lacking (l : list vrecord) : list vrecord :=
  List.filter (fun r => lacks_coords (get_latitude r) (get_longitude r)) l.

(** The records that get a marker, with their positions in the list
    counted from [i]. *)
Fixpoint located (i : nat) (l : list vrecord) : list (nat * vrecord) :=
  match l with
  | [] => []
  | r :: l' =>
      if lacks_coords (get_latitude r) (get_longitude r)
      then located (S i) l'
      else (i, r) :: located (S i) l'
  end.

(** The markers of a trace, in order. *)
Definition markers (t : list vevent) : list (nat * vrecord) :=
  omap (fun e => match e with EvMarker i r => Some (i, r) | _ => None end) t.

(** Two records that differ in their coordinates at most. *)
Definition same_entry (r r' : vrecord) : Prop :=
  name r' = name r /\ thumbnail r' = thumbnail r /\
  link r' = link r /\ location r' = location r.

(** The cache file holds the cache as it is in memory. *)
Definition cache_synced {W} `{!JsonCodec (gmap string (coords float))}
    (s : state float W) : Prop :=
  fs s !! CACHE_JSON
  = Some (list_byte_of_string (json_dump (geocode_cache s))).

(** What a value of type [A] is written as reads back as that value. *)
Definition round_trips {A} `{!JsonCodec A} (a : A) : Prop :=
  utf8_valid (list_byte_of_string (json_dump a)) = true /\
  json_load (json_dump a) = Parsed a.

End RunVocabulary.

Section PassVocabulary.

Context {float : Type}.

(** What one pass through the "Laad meer" loop prints and waits when
    the loop goes on after it. *)
Definition pass_events (a : attempt) : list (event float) :=
  match a with
  | Clicked => [EvPrint LogLoadingMore; EvSleep 3]
  | ClickIntercepted => [EvPrint LogRetryClick; EvSleep 2]
  | ButtonAbsent | DriverError => []
  end.

(** The events of the [k] passes from pass [n] on. *)
Fixpoint passes (browser : nat -> attempt) (n k : nat) : list (event float) :=
  match k with
  | O => []
  | S k' => pass_events (browser n) ++ passes browser (S n) k'
  end.

(** A pass after which the loop goes on. *)
Definition goes_on (a : attempt) : bool :=
  match a with
  | Clicked | ClickIntercepted => true
  | ButtonAbsent | DriverError => false
  end.

(** How the loop ends on a pass that does not go on, after the events
    [t]. *)
Definition ending (a : attempt) (t : list (event float))
    : result unit * list (event float) :=
  match a with
  | DriverError => (Raise WebDriverException, t)
  | _ => (Ok tt, t ++ [EvPrint LogNoMore])
  end.

End PassVocabulary.

(* ===================================================================== *)
(** * The popup of a marker: [build_popup_html]                           *)
(* ===================================================================== *)

(** The double quote and the line feed, as characters and as strings. *)
Definition dq_char : ascii := "034"%char.
Definition dq : string := String dq_char "".
Definition nl : string := String "010"%char "".

(** [html.escape(s)], with [quote=True]: the five characters that
    carry markup are replaced by their entities, the ampersand first.
    The string is taken as its UTF-8 bytes; the five characters are
    ASCII, and no byte of a longer UTF-8 sequence is. *)
Definition escape_char (ch : ascii) : string :=
  if Ascii.eqb ch "&"%char then "&amp;"
  else if Ascii.eqb ch "<"%char then "&lt;"
  else if Ascii.eqb ch ">"%char then "&gt;"
  else if Ascii.eqb ch dq_char then "&quot;"
  else if Ascii.eqb ch "'"%char then "&#x27;"
  else String ch "".

Fixpoint html_escape (s : string) : string :=
  match s with
  | EmptyString => ""
  | String ch rest => (escape_char ch ++ html_escape rest)%string
  end.

(** [str(index)] for an index that is not negative. *)
Definition str_of_nat (n : nat) : string :=
  NilEmpty.string_of_uint (Nat.to_uint n).

(** [f"museum_{index}"] *)
Definition museum_id (index : nat) : string :=
  ("museum_" ++ str_of_nat index)%string.

(** A value between double quotes. *)
Definition quoted (s : string) : string := (dq ++ s ++ dq)%string.

(** The pieces of [link_html]: empty when the link is. *)
Definition link_html (link : string) : list string :=
  if String.eqb link "" then []
  else ["<a href="; quoted (html_escape link);
        " target="; quoted "_blank"; " rel="; quoted "noopener";
        ">Open pagina</a>"].

(** The pieces of [img_html]: empty when there is no thumbnail or an
    empty one. *)
Definition img_html (thumb : option string) : list string :=
  match thumb with
  | None => []
  | Some src =>
      if String.eqb src "" then []
      else ["<div style="; quoted "margin-top:8px;";
            "><img src="; quoted (html_escape src);
            " alt="; quoted "";
            " style=";
            quoted "max-width:220px;height:auto;border-radius:8px;";
            "></div>"]
  end.

Section Popup.

Context {float : Type}.

(** The pieces of the string that [build_popup_html(item, index)]
    returns, in order. *)
Definition popup_parts (item : record float) (index : nat) : list string :=
  [nl; "    <div id="; quoted (museum_id index); " style=";
   quoted "font-family: system-ui, -apple-system, Segoe UI, Roboto, sans-serif; max-width: 260px;";
   ">"; nl;
   "      <div style=";
   quoted "font-weight:600; font-size:14px; margin-bottom:4px;"; ">";
   html_escape (name item); "</div>"; nl;
   "      <div style=";
   quoted "font-size:13px; color:#333; margin-bottom:6px;"; ">";
   html_escape (location item); "</div>"; nl;
   "      <div style="; quoted "font-size:13px;"; ">"]
  ++ link_html (link item)
  ++ ["</div>"; nl; "      "]
  ++ img_html (thumbnail item)
  ++ [nl; "      <hr style="; quoted "margin:8px 0;"; ">"; nl;
      "      <label style="; quoted "font-size:13px;"; ">"; nl;
      "        <input type="; quoted "checkbox";
      " class="; quoted "visited-toggle";
      " data-id="; quoted (museum_id index); "> Visited"; nl;
      "      </label>"; nl;
      "      <textarea class="; quoted "review-box";
      " data-id="; quoted (museum_id index);
      " placeholder="; quoted "Write a review...";
      " style="; quoted "width:100%;margin-top:4px;font-size:13px;";
      "></textarea>"; nl;
      "    </div>"; nl; "    "].

Definition build_popup_html (item : record float) (index : nat) : string :=
  String.concat "" (popup_parts item index).

(** The record with its text taken out: no name, no address, and a
    one-letter link and thumbnail where it had any. *)
Definition textless (item : record float) : record float :=
  {| name := ""; thumbnail :=
       match thumbnail item with
       | Some src => if String.eqb src "" then None else Some "x"
       | None => None
       end;
     link := if String.eqb (link item) "" then "" else "x";
     location := "";
     latitude := latitude item; longitude := longitude item |}.

End Popup.

(** How often a character occurs in a string. *)
Fixpoint count_char (c : ascii) (s : string) : nat :=
  match s with
  | EmptyString => 0
  | String ch rest => (if Ascii.eqb c ch then 1 else 0) + count_char c rest
  end.

(** The characters that open or close a tag or an attribute value. *)
Definition is_markup (c : ascii) : bool :=
  Ascii.eqb c "<"%char || Ascii.eqb c ">"%char
  || Ascii.eqb c dq_char || Ascii.eqb c "'"%char.

(* ===================================================================== *)
(** * A concrete world to run the scripts in                              *)
(* ===================================================================== *)

(** Floats stood in for by rationals, read from plain decimal literals
    (an optional sign, digits, an optional point). *)
Definition digit_of (c : ascii) : option Z :=
  let n := Z.of_nat (nat_of_ascii c) in
  if ((48 <=? n) && (n <=? 57))%Z then Some (n - 48)%Z else None.

Fixpoint decimal (s : string) (num : Z) (den : positive)
    (point seen : bool) : option Q :=
  match s with
  | EmptyString => if seen then Some (num # den) else None
  | String c rest =>
      if Ascii.eqb c "."%char then
        if point then None else decimal rest num den true seen
      else
        match digit_of c with
        | Some d =>
            decimal rest (10 * num + d)%Z
              (if point then (10 * den)%positive else den) point true
        | None => None
        end
  end.

Definition Q_of_str (s : string) : option Q :=
  match s with
  | String "-"%char rest =>
      match decimal rest 0 1 false false with
      | Some q => Some (- q)%Q
      | None => None
      end
  | _ => decimal s 0 1 false false
  end.

#[export] Instance Q_float : PyFloat Q := {
  float_of_int z := Some (z # 1);
  float_of_str := Q_of_str;
  float_truthy q := negb (Qnum q =? 0)%Z;
  float_is_nan _ := false
}.

(** A service that plays back a script: each request gets the next
    outcome of the list, and a transport failure once it is used up. *)
#[export] Instance scripted : Service Q (list (get_outcome Q)) := {
  session_get w _ :=
    match w with
    | [] => (GetRaises, [])
    | o :: rest => (o, rest)
    end
}.

#[export] Instance Q_eq_dec : EqDecision Q.
Proof. solve_decision. Defined.

#[export] Instance record_eq_dec : EqDecision (record Q).
Proof. solve_decision. Defined.

(** Two thousand opening brackets: a text on which the parser runs out
    of stack. *)
Definition deep_text : string :=
  string_of_list_ascii (List.repeat "["%char 2000).

(** A codec that knows the documents of a table and no other, and that
    gives up on [deep_text]. *)
Definition table_codec {A} `{!EqDecision A} (docs : list (string * A))
    : JsonCodec A := {|
  json_load s :=
    match List.find (fun d => String.eqb s (fst d)) docs with
    | Some d => Parsed (snd d)
    | None => if String.eqb s deep_text then TooDeep else NotJson
    end;
  json_dump a :=
    match List.find (fun d => bool_decide (snd d = a)) docs with
    | Some d => fst d
    | None => "null"
    end
|}.

(** A found place, as the service reports it. *)
Definition place (lat lon : string) : get_outcome Q :=
  GetResponse {| status_code := 200;
                 body := Parsed (JArr [JObj [("lat", JStr lat);
                                           ("lon", JStr lon)]]) |}.

(** Nothing found. *)
Definition no_match : get_outcome Q :=
  GetResponse {| status_code := 200; body := Parsed (JArr []) |}.

(** The throttling answer. *)
Definition throttled : get_outcome Q :=
  GetResponse {| status_code := 429; body := NotJson |}.

Definition a_museum : record Q :=
  {| name := "A Museum"; thumbnail := None; link := "https://www.museum.nl/a";
     location := "Main St 1"; latitude := None; longitude := None |}.

Definition museums_docs : list (string * list (record Q)) :=
  [("[]", []); ("[a_museum]", [a_museum])].

Definition cache_docs : list (string * gmap string (coords Q)) :=
  [("{}", ∅);
   ("{Main St 1: [52.1, 5.2]}", {["Main St 1" := (Some 52.1%Q, Some 5.2%Q)]});
   ("{Main St 1: [null, null]}", {["Main St 1" := (None, None)]})].

#[export] Instance museums_codec : JsonCodec (list (record Q)) :=
  table_codec museums_docs.

#[export] Instance cache_codec : JsonCodec (gmap string (coords Q)) :=
  table_codec cache_docs.

Definition empty_state {W} (w : W) : state Q W :=
  {| net := w; fs := ∅; geocode_cache := ∅ |}.

(** A body that is JSON, but not a list of places. *)
Definition odd_body : get_outcome Q :=
  GetResponse {| status_code := 200; body := Parsed (JArr [JObj []]) |}.

Definition found_museum : record Q :=
  set_coords a_museum (Some 52.1%Q, Some 5.2%Q).

Definition unfound_museum : record Q :=
  set_coords a_museum (None, None).

(** A first run over one museum, the service finding it at once. *)
Definition first_run
    : result (list (record Q)) * state Q (list (get_outcome Q))
      * list (event Q) :=
  enrich [a_museum] (empty_state [place "52.1" "5.2"]).

(** A state whose cache knows the museum's address. *)
Definition warm_state : state Q (list (get_outcome Q)) :=
  {| net := []; fs := ∅;
     geocode_cache := {["Main St 1" := (Some 52.1%Q, Some 5.2%Q)]} |}.

(** A browser whose button is obstructed twice and then gone. *)
Definition obstructed_twice (n : nat) : attempt :=
  if Nat.ltb n 2 then ClickIntercepted else ButtonAbsent.

(** A browser whose button is obstructed on every pass. *)
Definition always_obstructed (n : nat) : attempt := ClickIntercepted.

(** A card with a link and an image, and a site whose detail pages have
    neither title nor address block. *)
Definition plain_card : card :=
  {| a_href := Some (Some "/nl/museum/a"); img_src := Some (Some "a.jpg") |}.

Definition bare_site (url : string) : option page :=
  Some {| h1 := None; address := None |}.

(** A card without a link. *)
Definition linkless_card : card :=
  {| a_href := None; img_src := Some (Some "b.jpg") |}.

Definition fresh_harvest : harvest_state (float := Q) :=
  {| h_fs := ∅; museums := []; h_trace := [] |}.

(** Files with a museum list and a cache file that is text but not
    JSON. *)
Definition files_garbled_cache : files :=
  {[ INPUT_JSON := list_byte_of_string "[a_museum]";
     CACHE_JSON := list_byte_of_string "{oops" ]}.

(** The first bytes of a cache file whose first key starts with "Caf"
    followed by an e with acute accent, cut between the two bytes of
    that letter. *)
Definition cut_bytes : list byte := [x7b; x22; x43; x61; x66; xc3].

(** Files with a museum list and a cache file that is not UTF-8. *)
Definition files_undecodable_cache : files :=
  {[ INPUT_JSON := list_byte_of_string "[a_museum]";
     CACHE_JSON := cut_bytes ]}.

(** Files without a readable museum list, and with a cache file that
    cannot be read either. *)
Definition files_no_records : files :=
  {[ INPUT_JSON := list_byte_of_string "{oops";
     CACHE_JSON := cut_bytes ]}.

(** ** More of the concrete world *)

(** A codec that also knows the list with the museum found. *)
Definition museums_docs_found : list (string * list (record Q)) :=
  [("[a_museum]", [a_museum]); ("[found_museum]", [found_museum])].

Definition found_codec : JsonCodec (list (record Q)) :=
  table_codec museums_docs_found.

(** Files with the museum list and no cache file. *)
Definition files_first : files :=
  {[ INPUT_JSON := list_byte_of_string "[a_museum]" ]}.

(** A first run of [main] on them, the service finding the museum. *)
Definition restart_run
    : result (list (record Q)) * state Q (list (get_outcome Q))
      * list (event Q) :=
  main (JsonCodec0 := found_codec) [place "52.1" "5.2"] files_first.

(** A second museum, which has its coordinates. *)
Definition b_museum : record Q :=
  {| name := "B Museum"; thumbnail := None; link := "https://www.museum.nl/b";
     location := "Side St 2";
     latitude := Some (Some 51.9%Q); longitude := Some (Some 4.5%Q) |}.

(** A run over three museums, the second of which is not found. *)
Definition marked_run
    : result (list (record Q)) * state Q (list (get_outcome Q))
      * list (event Q) :=
  enrich [found_museum; a_museum; b_museum] (empty_state []).

(** ** A world whose floats have a NaN *)

(** Rationals and a NaN, which [None] stands for: [float("nan")] is
    accepted, as in Python. *)
#[export] Instance Qnan_float : PyFloat (option Q) := {
  float_of_int z := Some (Some (z # 1));
  float_of_str s :=
    if String.eqb s "nan" then Some None
    else match Q_of_str s with Some q => Some (Some q) | None => None end;
  float_truthy x :=
    match x with Some q => negb (Qnum q =? 0)%Z | None => true end;
  float_is_nan x := match x with None => true | Some _ => false end
}.

#[export] Instance scripted_nan
    : Service (option Q) (list (get_outcome (option Q))) := {
  session_get w _ :=
    match w with
    | [] => (GetRaises, [])
    | o :: rest => (o, rest)
    end
}.

#[export] Instance record_nan_eq_dec : EqDecision (record (option Q)).
Proof. solve_decision. Defined.

#[export] Instance museums_nan_codec : JsonCodec (list (record (option Q))) :=
  table_codec [].

#[export] Instance cache_nan_codec
    : JsonCodec (gmap string (coords (option Q))) :=
  table_codec [].

(** A place whose latitude the service reports as "nan". *)
Definition nan_place : get_outcome (option Q) :=
  GetResponse {| status_code := 200;
                 body := Parsed (JArr [JObj [("lat", JStr "nan");
                                           ("lon", JStr "5.2")]]) |}.

Definition nan_museum : record (option Q) :=
  {| name := "A Museum"; thumbnail := None; link := "https://www.museum.nl/a";
     location := "Main St 1"; latitude := None; longitude := None |}.

(** A state whose cache file holds its (empty) cache. *)
Definition synced_state : state Q (list (get_outcome Q)) :=
  {| net := [place "52.1" "5.2"];
     fs := {[ CACHE_JSON := list_byte_of_string "{}" ]};
     geocode_cache := ∅ |}.

(** A lookup that finds nothing, on both attempts. *)
Definition unfound_lookup
    : result (coords Q) * state Q (list (get_outcome Q)) * list (event Q) :=
  geocode_address "Main St 1" (empty_state [no_match; no_match]).

(** A browser that clicks, is obstructed, and then fails. *)
Definition failing_browser (n : nat) : attempt :=
  match n with
  | 0 => Clicked
  | 1 => ClickIntercepted
  | _ => DriverError
  end.

(** The record that [plain_card] gives on [bare_site]. *)
Definition unknown_museum : record Q :=
  {| name := "Unknown"; thumbnail := Some "a.jpg";
     link := "https://www.museum.nl/nl/museum/a";
     location := "Unknown"; latitude := None; longitude := None |}.

Definition harvest_docs : list (string * list (record Q)) :=
  [("[]", []); ("[unknown]", [unknown_museum]);
   ("[unknown, unknown]", [unknown_museum; unknown_museum])].

Definition harvest_codec : JsonCodec (list (record Q)) :=
  table_codec harvest_docs.

(** A first harvest of one card, from no file. *)
Definition first_harvest : result (harvest_state (float := Q)) :=
  harvest (JsonCodec0 := harvest_codec) bare_site [plain_card] ∅ [].

Definition first_harvest_state : harvest_state (float := Q) :=
  match first_harvest with
  | Ok s => s
  | Raise _ => fresh_harvest
  end.

(** A museum whose name is markup. *)
Definition tricky_museum : record Q :=
  {| name := "<script>alert('x')</script>"; thumbnail := Some "a.jpg?<>";
     link := "https://www.museum.nl/a?b=1&c='2'";
     location := "Main St <1>"; latitude := None; longitude := None |}.


(* ===================================================================== *)
(** * Running the model on the examples of the specification              *)
(* ===================================================================== *)

Example Q_of_str_52_1 : Q_of_str "52.1" = Some 52.1%Q.
Proof. reflexivity. Qed.

Example utf8_valid_samples :
  utf8_valid (list_byte_of_string "{oops") = true /\
  utf8_valid [xc3; xa9] = true /\
  utf8_valid [xe2; x82; xac] = true /\
  utf8_valid [xf0; x9f; x98; x80] = true /\
  utf8_valid [xc3] = false /\
  utf8_valid [xff] = false /\
  utf8_valid [xc0; x80] = false /\
  utf8_valid [xed; xa0; x80] = false.
Proof. vm_compute. repeat split. Qed.

Example run_end_to_end_found :
  let '(r, s, t) := enrich [a_museum] (empty_state [place "52.1" "5.2"]) in
  r = Ok [set_coords a_museum (Some 52.1%Q, Some 5.2%Q)] /\
  geocode_cache s = {["Main St 1" := (Some 52.1%Q, Some 5.2%Q)]} /\
  gets t = ["Main St 1"].
Proof. vm_compute. auto. Qed.

(* ===================================================================== *)
(** * PersistedStore: properties                                          *)
(* ===================================================================== *)

Section StoreFacts.

Context {A : Type} `{!JsonCodec A}.

Lemma load_json_absent (fs : files) (path : string) (default : A) :
  fs !! path = None -> load_json fs path default = Ok default.
Proof. intros Hfs. unfold load_json. now rewrite Hfs. Qed.

Lemma load_json_not_json (fs : files) (path : string) (default : A)
    (bytes : list byte) :
  fs !! path = Some bytes ->
  utf8_valid bytes = true ->
  json_load (string_of_list_byte bytes) = NotJson ->
  load_json fs path default = Ok default.
Proof. intros Hfs Hutf Hjson. unfold load_json. now rewrite Hfs, Hutf, Hjson. Qed.

Lemma load_json_too_deep (fs : files) (path : string) (default : A)
    (bytes : list byte) :
  fs !! path = Some bytes ->
  utf8_valid bytes = true ->
  json_load (string_of_list_byte bytes) = TooDeep ->
  load_json fs path default = Raise RecursionError.
Proof. intros Hfs Hutf Hjson. unfold load_json. now rewrite Hfs, Hutf, Hjson. Qed.

Lemma load_json_not_utf8 (fs : files) (path : string) (default : A)
    (bytes : list byte) :
  fs !! path = Some bytes ->
  utf8_valid bytes = false ->
  load_json fs path default = Raise UnicodeDecodeError.
Proof. intros Hfs Hutf. unfold load_json. now rewrite Hfs, Hutf. Qed.

Lemma load_json_parsed (fs : files) (path : string) (default v : A)
    (bytes : list byte) :
  fs !! path = Some bytes ->
  utf8_valid bytes = true ->
  json_load (string_of_list_byte bytes) = Parsed v ->
  load_json fs path default = Ok v.
Proof. intros Hfs Hutf Hjson. unfold load_json. now rewrite Hfs, Hutf, Hjson. Qed.

(** What is saved is what the file holds afterwards, and no other file
    changes. *)
Lemma save_json_lookup (fs : files) (path : string) (obj : A) :
  save_json fs path obj !! path = Some (list_byte_of_string (json_dump obj)).
Proof. unfold save_json. apply lookup_insert_eq. Qed.

Lemma save_json_other (fs : files) (path path' : string) (obj : A) :
  path <> path' -> save_json fs path obj !! path' = fs !! path'.
Proof. intros Hne. unfold save_json. now apply lookup_insert_ne. Qed.

End StoreFacts.

(* ===================================================================== *)
(** * Harvester: properties                                               *)
(* ===================================================================== *)

Section HarvesterFacts.

Context {float : Type}.
Context `{!JsonCodec (list (record float))}.

#[local] Abbreviation hevent := (event float).

Lemma load_more_obstructed_prefix (browser : nat -> attempt) (k : nat) :
  forall (n : nat) (t : list hevent),
    (forall i, i < k -> browser (n + i) = ClickIntercepted) ->
    forall fuel,
      load_more (k + fuel) browser n t
      = load_more fuel browser (n + k) (t ++ retries k).
Proof.
  induction k as [|k IH]; intros n t Hobs fuel.
  - simpl. now rewrite Nat.add_0_r, app_nil_r.
  - simpl. specialize (Hobs 0 ltac:(lia)) as H0.
    rewrite Nat.add_0_r in H0. rewrite H0.
    rewrite IH.
    + rewrite <- app_assoc. simpl. f_equal. lia.
    + intros i Hi. replace (S n + i) with (n + S i) by lia.
      apply Hobs. lia.
Qed.

Lemma load_more_obstructed_runs_out (browser : nat -> attempt) (fuel : nat) :
  forall (n : nat) (t : list hevent),
    (forall i, i < fuel -> browser (n + i) = ClickIntercepted) ->
    load_more fuel browser n t = None.
Proof.
  induction fuel as [|fuel IH]; intros n t Hobs; [reflexivity|].
  simpl. specialize (Hobs 0 ltac:(lia)) as H0.
  rewrite Nat.add_0_r in H0. rewrite H0.
  apply IH. intros i Hi. replace (S n + i) with (n + S i) by lia.
  apply Hobs. lia.
Qed.

(** C7, as the code has it.  A pass that finds the button obstructed is
    followed by a two-second wait and another pass, with no limit on how
    often: when the button is obstructed [k] times and then gone, the
    loop ends after exactly [k] retries, whatever [k] is, and it has not
    ended after any smaller number of passes. *)
Theorem load_more_retries_without_bound
    (browser : nat -> attempt) (k : nat) (t : list hevent) :
  (forall i, i < k -> browser i = ClickIntercepted) ->
  browser k = ButtonAbsent ->
  load_more (S k) browser 0 t
    = Some (Ok tt, t ++ retries k ++ [EvPrint LogNoMore]) /\
  forall fuel, fuel <= k -> load_more fuel browser 0 t = None.
Proof.
  intros Hobs Habs. split.
  - replace (S k) with (k + 1) by lia.
    rewrite load_more_obstructed_prefix by (simpl; exact Hobs).
    simpl. rewrite Habs. now rewrite <- app_assoc.
  - intros fuel Hle. apply load_more_obstructed_runs_out.
    intros i Hi. simpl. apply Hobs. lia.
Qed.

Lemma scrape_cards_museums (web : string -> option page) (n : nat)
    (cards : list card) :
  forall (i : nat) (s : harvest_state),
    museums (scrape_cards web n i cards s) = museums s ++ extracted web cards.
Proof.
  induction cards as [|c cards IH]; intros i s; simpl.
  - now rewrite app_nil_r.
  - rewrite IH. unfold scrape_card, extracted. simpl.
    destruct (extract web c) as [[r|e] evs]; simpl.
    + now rewrite <- app_assoc.
    + reflexivity.
Qed.

(** C8, as the code has it.  A card whose extraction raises (no link or
    no image on the card, a link without [href], a failed fetch) is
    reported and leaves the list and the files as they were; the records
    of a run are the earlier ones followed by one record for each card
    whose extraction did not raise, so no card affects another.  A title
    or an address block missing from the detail page does not raise: the
    record is appended with "Unknown" in its place. *)
Theorem scrape_cards_isolates_failures
    (web : string -> option page) (n i : nat) (c : card)
    (cards : list card) (s : harvest_state) :
  match extract web c with
  | (Raise e, evs) =>
      scrape_card web n i c s
      = {| h_fs := h_fs s; museums := museums s;
           h_trace := h_trace s ++ evs ++ [EvPrint (LogError i n e)] |}
  | (Ok r, evs) =>
      museums (scrape_card web n i c s) = museums s ++ [r]
  end /\
  museums (scrape_cards web n i cards s) = museums s ++ extracted web cards /\
  is_Ok (fst (extract (float:=float) web c))
  = match a_href c, img_src c with
    | Some (Some href), Some _ =>
        match web (if String.prefix "/" href then SITE ++ href else href)%string
        with
        | Some _ => true
        | None => false
        end
    | _, _ => false
    end /\
  forall href src soup,
    a_href c = Some (Some href) ->
    img_src c = Some src ->
    web (if String.prefix "/" href then SITE ++ href else href)%string
      = Some soup ->
    fst (extract (float:=float) web c)
    = Ok {| name := match h1 soup with Some t => t | None => UNKNOWN end;
            thumbnail := src;
            link := (if String.prefix "/" href then SITE ++ href else href)%string;
            location := match address soup with
                        | Some a => a | None => UNKNOWN end;
            latitude := None; longitude := None |}.
Proof.
  split; [|split; [|split]].
  - unfold scrape_card. destruct (extract web c) as [[r|e] evs]; reflexivity.
  - apply scrape_cards_museums.
  - unfold extract.
    destruct (a_href c) as [[href|]|]; destruct (img_src c);
      try reflexivity; destruct (web _); reflexivity.
  - intros href src soup Ha Hi Hw. unfold extract. now rewrite Ha, Hw, Hi.
Qed.

End HarvesterFacts.

(* ===================================================================== *)
(** * Enricher: one resolution attempt, one lookup                        *)
(* ===================================================================== *)

Section EnricherFacts.

Context {float : Type} `{!PyFloat float}.
Context {W : Type} `{!Service float W}.
Context `{!JsonCodec (list (record float))}.
Context `{!JsonCodec (gmap string (coords float))}.

#[local] Abbreviation estate := (state float W).
#[local] Abbreviation ecoords := (coords float).
#[local] Abbreviation erecord := (record float).
#[local] Abbreviation eevent := (event float).

Lemma with_fs_same (s : estate) : with_fs s (fs s) = s.
Proof. now destruct s. Qed.

(** [_geocode_nominatim] case by case: one request, or two when the
    first answer has status 429. *)
Lemma _geocode_nominatim_cases (q : string) (s : estate) :
  _geocode_nominatim q s =
  match session_get (net s) q with
  | (GetRaises, w1) => (Ok (None, None), with_net s w1, [EvGet q GetRaises])
  | (GetResponse r1, w1) =>
      if (status_code r1 =? 429)%Z then
        match session_get w1 q with
        | (o2, w2) =>
            (verdict o2, with_net s w2,
             [EvGet q (GetResponse r1); EvSleep RETRY_BACKOFF_SECONDS;
              EvGet q o2])
        end
      else (verdict (GetResponse r1), with_net s w1,
            [EvGet q (GetResponse r1)])
  end.
Proof.
  unfold _geocode_nominatim, try_except_RequestException, bind, get.
  destruct (session_get (net s) q) as [[|r1] w1]; simpl; [reflexivity|].
  destruct (status_code r1 =? 429)%Z; simpl.
  - unfold sleep, emit, get. simpl.
    destruct (session_get w1 q) as [[|r2] w2]; simpl; reflexivity.
  - unfold lift, ret. simpl. reflexivity.
Qed.

(** An attempt touches neither the files nor the cache. *)
Lemma _geocode_nominatim_frame (q : string) (s s' : estate)
    (r : result ecoords) (t : list eevent) :
  _geocode_nominatim q s = (r, s', t) ->
  fs s' = fs s /\ geocode_cache s' = geocode_cache s.
Proof.
  rewrite _geocode_nominatim_cases.
  destruct (session_get (net s) q) as [[|r1] w1].
  - intros [= <- <- <-]. now simpl.
  - destruct (status_code r1 =? 429)%Z.
    + destruct (session_get w1 q) as [o2 w2]. intros [= <- <- <-]. now simpl.
    + intros [= <- <- <-]. now simpl.
Qed.

Lemma read_response_pair_ok (resp : response float) (c : ecoords) :
  read_response resp = Ok c -> pair_ok c = true.
Proof.
  unfold read_response.
  destruct (raise_for_status resp); [|discriminate].
  destruct (resp_json resp) as [data|]; [|discriminate].
  destruct (negb (truthy data)); [now intros [= <-]|].
  destruct (float_field data "lat"); [|discriminate].
  destruct (float_field data "lon"); [|discriminate].
  now intros [= <-].
Qed.

Lemma verdict_pair_ok (o : get_outcome float) (c : ecoords) :
  verdict o = Ok c -> pair_ok c = true.
Proof.
  destruct o as [|resp]; simpl; [now intros [= <-]|].
  destruct (read_response resp) as [c'|e] eqn:Hr; simpl.
  - intros [= <-]. eapply read_response_pair_ok; eauto.
  - destruct (is_RequestException e); [now intros [= <-]|discriminate].
Qed.

Lemma _geocode_nominatim_pair_ok (q : string) (s s' : estate)
    (c : ecoords) (t : list eevent) :
  _geocode_nominatim q s = (Ok c, s', t) -> pair_ok c = true.
Proof.
  rewrite _geocode_nominatim_cases.
  destruct (session_get (net s) q) as [[|r1] w1].
  - now intros [= <- <- <-].
  - destruct (status_code r1 =? 429)%Z.
    + destruct (session_get w1 q) as [o2 w2]. intros [= Hv _ _].
      eapply verdict_pair_ok; eauto.
    + intros [= Hv _ _]. exact (verdict_pair_ok (GetResponse r1) c Hv).
Qed.

(** The requests of an attempt all carry the query it was given, and
    there are one or two of them. *)
Lemma _geocode_nominatim_gets (q : string) (s s' : estate)
    (r : result ecoords) (t : list eevent) :
  _geocode_nominatim q s = (r, s', t) -> gets t = [q] \/ gets t = [q; q].
Proof.
  rewrite _geocode_nominatim_cases.
  destruct (session_get (net s) q) as [[|r1] w1].
  - intros [= <- <- <-]. now left.
  - destruct (status_code r1 =? 429)%Z.
    + destruct (session_get w1 q) as [o2 w2]. intros [= <- <- <-]. now right.
    + intros [= <- <- <-]. now left.
Qed.

Lemma raise_for_status_error (resp : response float) :
  (400 <= status_code resp < 600)%Z -> raise_for_status resp = Raise HTTPError.
Proof.
  intros Hst. unfold raise_for_status.
  destruct (Z.leb_spec 400 (status_code resp));
    destruct (Z.ltb_spec (status_code resp) 600); simpl; try lia.
  reflexivity.
Qed.

Lemma raise_for_status_passes (resp : response float) :
  ~ (400 <= status_code resp < 600)%Z -> raise_for_status resp = Ok tt.
Proof.
  intros Hst. unfold raise_for_status.
  destruct (Z.leb_spec 400 (status_code resp));
    destruct (Z.ltb_spec (status_code resp) 600); simpl; try lia;
    reflexivity.
Qed.

(** C4.  When the service answers a request with status 429, the attempt
    sleeps for the backoff interval and sends the same request once more,
    and that is all it sends, whatever the second answer is.  The second
    answer decides the outcome.  A transport failure, an error status
    (the throttling status again included), a body on which
    [resp.json()] raises its JSON decode error, and a falsy JSON body
    (the empty list of no match) each give not found.  A body [data]
    with [float(data[0]["lat"])] = [lat] and [float(data[0]["lon"])] =
    [lon] gives exactly the pair [(lat, lon)]. *)
Theorem throttled_request_is_retried_once
    (q : string) (s : estate) (r1 : response float) (w1 : W)
    (o2 : get_outcome float) (w2 : W) :
  session_get (net s) q = (GetResponse r1, w1) ->
  status_code r1 = 429%Z ->
  session_get w1 q = (o2, w2) ->
  exists r,
    _geocode_nominatim q s
    = (r, with_net s w2,
       [EvGet q (GetResponse r1); EvSleep RETRY_BACKOFF_SECONDS; EvGet q o2])
    /\ r = verdict o2
    /\ (o2 = GetRaises -> r = Ok (None, None))
    /\ (forall r2, o2 = GetResponse r2 ->
          (400 <= status_code r2 < 600)%Z -> r = Ok (None, None))
    /\ (forall r2, o2 = GetResponse r2 ->
          ~ (400 <= status_code r2 < 600)%Z ->
          (body r2 = NotJson -> r = Ok (None, None)) /\
          (forall data, body r2 = Parsed data -> truthy data = false ->
                        r = Ok (None, None)) /\
          (forall data d vlat vlon lat lon,
             body r2 = Parsed data -> truthy data = true ->
             getitem_0 data = Ok d ->
             getitem_str "lat" d = Ok vlat -> py_float vlat = Ok lat ->
             getitem_str "lon" d = Ok vlon -> py_float vlon = Ok lon ->
             r = Ok (Some lat, Some lon))).
Proof.
  intros H1 Hst H2. exists (verdict o2).
  split; [|split; [reflexivity|]].
  { rewrite _geocode_nominatim_cases, H1, Hst. simpl. now rewrite H2. }
  split; [now intros ->|]. split.
  - intros r2 -> Herr. simpl. unfold read_response.
    now rewrite raise_for_status_error.
  - intros r2 -> Hok. simpl. unfold read_response, resp_json.
    rewrite raise_for_status_passes by exact Hok.
    split; [|split].
    + now intros ->.
    + intros data -> Hfalsy. now rewrite Hfalsy.
    + intros data d vlat vlon lat lon -> Htruthy Hd Hvlat Hlat Hvlon Hlon.
      unfold float_field.
      now rewrite Htruthy, Hd, Hvlat, Hlat, Hvlon, Hlon.
Qed.

(** C10.  An empty address gives [(None, None)] at once: the state is
    left as it was, cache and files included, whatever the cache holds,
    and nothing is emitted: no request, no write, no sleep. *)
Theorem geocode_address_empty (s : estate) :
  geocode_address "" s = (Ok (None, None), s, []).
Proof. reflexivity. Qed.

Lemma lookup_hit_unfolds (address : string) (entry : ecoords)
    (s : estate) :
  address <> "" ->
  geocode_cache s !! address = Some entry ->
  geocode_address address s = (Ok entry, s, []).
Proof.
  intros Hne Hhit. unfold geocode_address.
  destruct (String.eqb_spec address ""); [contradiction|].
  now rewrite Hhit.
Qed.

(** C2.  A non-empty address with an entry in the cache gives that
    entry; the state is left as it was and nothing is emitted, so no
    request is sent. *)
Theorem geocode_address_hit (address : string) (entry : ecoords) (s : estate) :
  address <> "" ->
  geocode_cache s !! address = Some entry ->
  geocode_address address s = (Ok entry, s, []) /\
  gets (snd (geocode_address address s)) = [].
Proof.
  intros Hne Hhit.
  rewrite (lookup_hit_unfolds address entry s Hne Hhit).
  now split.
Qed.

Lemma lookup_miss_unfolds (address : string) (s : estate) :
  address <> "" ->
  geocode_cache s !! address = None ->
  geocode_address address s =
  match _geocode_nominatim address s with
  | (Raise e, s1, t1) => (Raise e, s1, t1)
  | (Ok c1, s1, t1) =>
      if is_none_pair c1 then
        match _geocode_nominatim (address ++ COUNTRY_SUFFIX) s1 with
        | (Raise e, s2, t2) => (Raise e, s2, t1 ++ t2)
        | (Ok c2, s2, t2) =>
            (Ok c2, stored address c2 s2,
             t1 ++ t2 ++ [EvSaveCache (<[address := c2]> (geocode_cache s2));
                          EvSleep GEOCODE_SLEEP_SECONDS])
        end
      else
        (Ok c1, stored address c1 s1,
         t1 ++ [EvSaveCache (<[address := c1]> (geocode_cache s1));
                EvSleep GEOCODE_SLEEP_SECONDS])
  end.
Proof.
  intros Hne Hmiss. unfold geocode_address.
  destruct (String.eqb_spec address ""); [contradiction|].
  rewrite Hmiss. unfold bind at 1.
  destruct (_geocode_nominatim address s) as [[[c1|e] s1] t1]; [|reflexivity].
  unfold bind at 1.
  destruct (is_none_pair c1).
  - destruct (_geocode_nominatim (address ++ COUNTRY_SUFFIX) s1)
      as [[[c2|e] s2] t2]; [|reflexivity].
    reflexivity.
  - simpl. reflexivity.
Qed.

Lemma gets_app (t1 t2 : list eevent) : gets (t1 ++ t2) = gets t1 ++ gets t2.
Proof. apply omap_app. Qed.

Lemma outcomes_app (t1 t2 : list eevent) :
  outcomes (t1 ++ t2) = outcomes t1 ++ outcomes t2.
Proof. apply omap_app. Qed.

Lemma is_none_pair_true (c : ecoords) :
  is_none_pair c = true <-> c = (None, None).
Proof.
  destruct c as [[lat|] [lon|]]; simpl; split; intros Heq;
    congruence.
Qed.

(** C3.  On a miss for a non-empty address the lookup first runs an
    attempt with the raw address.  If that attempt raises, so does the
    lookup.  If it gives a pair, no further request is sent.  If and
    only if it gives not found, one more attempt runs, with the address
    followed by the country suffix.  The outcome is stored in the cache
    under the raw address, the cache is written to its file, and then
    the lookup sleeps and returns: on return the file holds the cache as
    it is in memory. *)
Theorem geocode_address_miss (address : string) (s : estate) :
  address <> "" ->
  geocode_cache s !! address = None ->
  geocode_address address s =
  match _geocode_nominatim address s with
  | (Raise e, s1, t1) => (Raise e, s1, t1)
  | (Ok c1, s1, t1) =>
      if is_none_pair c1 then
        match _geocode_nominatim (address ++ COUNTRY_SUFFIX) s1 with
        | (Raise e, s2, t2) => (Raise e, s2, t1 ++ t2)
        | (Ok c2, s2, t2) =>
            (Ok c2, stored address c2 s2,
             t1 ++ t2 ++ [EvSaveCache (<[address := c2]> (geocode_cache s2));
                          EvSleep GEOCODE_SLEEP_SECONDS])
        end
      else
        (Ok c1, stored address c1 s1,
         t1 ++ [EvSaveCache (<[address := c1]> (geocode_cache s1));
                EvSleep GEOCODE_SLEEP_SECONDS])
  end /\
  (exists n m,
     gets (snd (geocode_address address s))
     = replicate n address ++ replicate m (address ++ COUNTRY_SUFFIX)%string /\
     (n = 1 \/ n = 2) /\ (m = 0 \/ m = 1 \/ m = 2) /\
     (m <> 0 <->
      fst (fst (_geocode_nominatim address s)) = Ok (None, None))) /\
  (forall c s' t,
     geocode_address address s = (Ok c, s', t) ->
     geocode_cache s' = <[address := c]> (geocode_cache s) /\
     fs s' !! CACHE_JSON
     = Some (list_byte_of_string (json_dump (geocode_cache s'))) /\
     exists t0,
       t = t0 ++ [EvSaveCache (geocode_cache s');
                  EvSleep GEOCODE_SLEEP_SECONDS]).
Proof.
  intros Hne Hmiss.
  pose proof (lookup_miss_unfolds address s Hne Hmiss) as Hrun.
  split; [exact Hrun|].
  rewrite Hrun. clear Hrun.
  destruct (_geocode_nominatim address s) as [[r1 s1] t1] eqn:H1.
  pose proof (_geocode_nominatim_gets _ _ _ _ _ H1) as Hg1.
  pose proof (_geocode_nominatim_frame _ _ _ _ _ H1) as [Hfs1 Hc1].
  destruct r1 as [c1|e1].
  - destruct (is_none_pair c1) eqn:Hnone.
    + apply is_none_pair_true in Hnone. subst c1.
      destruct (_geocode_nominatim (address ++ COUNTRY_SUFFIX) s1)
        as [[r2 s2] t2] eqn:H2.
      pose proof (_geocode_nominatim_gets _ _ _ _ _ H2) as Hg2.
      pose proof (_geocode_nominatim_frame _ _ _ _ _ H2) as [Hfs2 Hc2].
      assert (Hm : exists m, gets t2
                 = replicate m (address ++ COUNTRY_SUFFIX)%string /\
                 (m = 1 \/ m = 2)).
      { destruct Hg2 as [-> | ->]; [exists 1 | exists 2]; auto. }
      assert (Hn : exists n, gets t1 = replicate n address /\
                             (n = 1 \/ n = 2)).
      { destruct Hg1 as [-> | ->]; [exists 1 | exists 2]; auto. }
      destruct Hm as (m & Hm & Hm12), Hn as (n & Hn & Hn12).
      split.
      * exists n, m. simpl.
        assert (Hgets : forall tail : list eevent, gets tail = [] ->
                  gets (t1 ++ t2 ++ tail)
                  = replicate n address
                    ++ replicate m (address ++ COUNTRY_SUFFIX)%string).
        { intros tail Htail.
          now rewrite !gets_app, Hn, Hm, Htail, app_nil_r. }
        split.
        { destruct r2 as [c2|e2]; simpl.
          - now apply Hgets.
          - rewrite <- (app_nil_r t2). now apply Hgets. }
        split; [exact Hn12|]. split; [lia|].
        split; [reflexivity | lia].
      * destruct r2 as [c2|e2]; [|discriminate].
        intros c s' t [= <- <- <-]. unfold stored. simpl.
        rewrite Hc2, Hc1.
        split; [reflexivity|]. split; [apply save_json_lookup|].
        exists (t1 ++ t2). now rewrite <- app_assoc.
    + assert (Hn : exists n, gets t1 = replicate n address /\
                             (n = 1 \/ n = 2)).
      { destruct Hg1 as [-> | ->]; [exists 1 | exists 2]; auto. }
      destruct Hn as (n & Hn & Hn12).
      split.
      * exists n, 0. simpl. rewrite gets_app, Hn. simpl.
        split; [reflexivity|]. split; [exact Hn12|]. split; [auto|].
        split; [congruence|].
        intros [= ->]. simpl in Hnone. discriminate.
      * intros c s' t [= <- <- <-]. unfold stored. simpl.
        rewrite Hc1.
        split; [reflexivity|]. split; [apply save_json_lookup|].
        now exists t1.
  - split.
    + assert (Hn : exists n, gets t1 = replicate n address /\
                             (n = 1 \/ n = 2)).
      { destruct Hg1 as [-> | ->]; [exists 1 | exists 2]; auto. }
      destruct Hn as (n & Hn & Hn12).
      exists n, 0. simpl. rewrite Hn, app_nil_r.
      split; [reflexivity|]. split; [exact Hn12|]. split; [auto|].
      split; [congruence | discriminate].
    + intros c s' t. discriminate.
Qed.

(* ===================================================================== *)
(** * Enricher: the files are written, never read                         *)
(* ===================================================================== *)

#[local] Abbreviation eblind m := (blind (float := float) (W := W) m).

Lemma replay_app (t1 t2 : list eevent) (f : files) :
  replay (t1 ++ t2) f = replay t2 (replay t1 f).
Proof.
  revert f. induction t1 as [|e t1 IH]; intros f; [reflexivity|].
  destruct e; simpl; apply IH.
Qed.

Lemma blind_fs {A} (m : M A) (s s' : estate) (r : result A)
    (t : list eevent) :
  eblind m -> m s = (r, s', t) -> fs s' = replay t (fs s).
Proof.
  intros Hb Hrun. specialize (Hb s (fs s)).
  rewrite with_fs_same, Hrun in Hb. now injection Hb as ->.
Qed.

Lemma blind_ret {A} (a : A) : eblind (ret a).
Proof. intros s f. reflexivity. Qed.

Lemma blind_lift {A} (r : result A) : eblind (lift r).
Proof. intros s f. reflexivity. Qed.

Lemma blind_raise {A} (e : exn) : eblind (raise (A := A) e).
Proof. intros s f. reflexivity. Qed.

Lemma blind_bind {A B} (m : M A) (k : A -> M B) :
  eblind m -> (forall a, eblind (k a)) -> eblind (bind m k).
Proof.
  intros Hm Hk s f. unfold bind. rewrite Hm.
  destruct (m s) as [[[a|e] s1] t1]; [|reflexivity].
  rewrite Hk. destruct (k a s1) as [[r s2] t2].
  now rewrite replay_app.
Qed.

Lemma blind_try {A} (m : M A) (c : A) :
  eblind m -> eblind (try_except_RequestException m c).
Proof.
  intros Hm s f. unfold try_except_RequestException. rewrite Hm.
  now destruct (m s) as [[r s1] t1].
Qed.

Lemma blind_get (q : string) : eblind (get q).
Proof.
  intros s f. unfold get. simpl.
  destruct (session_get (net s) q) as [[|resp] w]; reflexivity.
Qed.

Lemma blind_sleep (d : Q) : eblind (sleep d).
Proof. intros s f. reflexivity. Qed.

Lemma blind_print (l : log_line) : eblind (print l).
Proof. intros s f. reflexivity. Qed.

Lemma blind_marker (i : nat) (r : erecord) : eblind (emit (EvMarker i r)).
Proof. intros s f. reflexivity. Qed.

Lemma blind_save_map : eblind (emit EvSaveMap).
Proof. intros s f. reflexivity. Qed.

Lemma blind_cache_set (address : string) (c : ecoords) :
  eblind (cache_set address c).
Proof. intros s f. reflexivity. Qed.

Lemma blind_save_cache : eblind save_cache.
Proof. intros s f. reflexivity. Qed.

Lemma blind_save_museums (l : list erecord) : eblind (save_museums l).
Proof. intros s f. reflexivity. Qed.

Lemma blind__geocode_nominatim (q : string) : eblind (_geocode_nominatim q).
Proof.
  unfold _geocode_nominatim. apply blind_try.
  apply blind_bind; [apply blind_get|]. intros resp.
  apply blind_bind; [|intros; apply blind_lift].
  destruct (status_code resp =? 429)%Z; [|apply blind_ret].
  apply blind_bind; [apply blind_sleep | intros; apply blind_get].
Qed.

Lemma blind_geocode_address (address : string) :
  eblind (geocode_address address).
Proof.
  unfold geocode_address.
  destruct (String.eqb address ""); [apply blind_ret|].
  intros s f. simpl.
  destruct (geocode_cache s !! address) as [c|]; [reflexivity|].
  revert s f. change (blind
    (bind (_geocode_nominatim address) (fun c =>
     bind (if is_none_pair c
           then _geocode_nominatim (address ++ COUNTRY_SUFFIX) else ret c)
       (fun c => bind (cache_set address c) (fun _ =>
                 bind save_cache (fun _ =>
                 bind (sleep GEOCODE_SLEEP_SECONDS) (fun _ => ret c))))))).
  apply blind_bind; [apply blind__geocode_nominatim|]. intros c1.
  apply blind_bind.
  { destruct (is_none_pair c1);
      [apply blind__geocode_nominatim | apply blind_ret]. }
  intros c. apply blind_bind; [apply blind_cache_set|]. intros _.
  apply blind_bind; [apply blind_save_cache|]. intros _.
  apply blind_bind; [apply blind_sleep|]. intros _. apply blind_ret.
Qed.

Lemma blind_enrich_item (i : nat) (done : list erecord) (item : erecord)
    (rest : list erecord) :
  eblind (enrich_item i done item rest).
Proof.
  unfold enrich_item. apply blind_bind.
  - destruct (lacks_coords _ _); [|apply blind_ret].
    apply blind_bind; [apply blind_geocode_address|]. intros c.
    apply blind_bind; [apply blind_save_museums|]. intros _. apply blind_ret.
  - intros [item' [lat lon]].
    destruct (lacks_coords lat lon); [apply blind_ret|].
    destruct (refused lat lon); [apply blind_raise|].
    apply blind_bind; [apply blind_marker|]. intros _.
    apply blind_bind; [apply blind_print|]. intros _. apply blind_ret.
Qed.

Lemma blind_enrich_from (todo : list erecord) :
  forall (i : nat) (done : list erecord), eblind (enrich_from i done todo).
Proof.
  induction todo as [|item rest IH]; intros i done; simpl.
  - apply blind_ret.
  - apply blind_bind; [apply blind_enrich_item|]. intros item'. apply IH.
Qed.

Lemma blind_enrich (museums : list erecord) : eblind (enrich museums).
Proof. apply blind_enrich_from. Qed.

(** What [load_json] does get right.  It gives the default when the
    file is absent, and also when the file holds UTF-8 text that the
    parser rejects with [json.JSONDecodeError]; the resume step of the
    Harvester is the same function with the empty list as default.  So a
    run of [main] over a cache file of that kind is the run it would be
    with the file absent: the same result, the same events, the same
    cache in memory, and the same writes. *)
Theorem load_json_gives_default (w : W) (fs0 : files) :
  (forall (A : Type) (codec : JsonCodec A) (path : string) (default : A),
     fs0 !! path = None -> load_json fs0 path default = Ok default) /\
  (forall (A : Type) (codec : JsonCodec A) (path : string) (default : A)
          (bytes : list byte),
     fs0 !! path = Some bytes ->
     utf8_valid bytes = true ->
     json_load (string_of_list_byte bytes) = NotJson ->
     load_json fs0 path default = Ok default) /\
  resume (float := float) fs0 = load_json fs0 output_file [] /\
  (forall bytes : list byte,
     fs0 !! CACHE_JSON = Some bytes ->
     utf8_valid bytes = true ->
     json_load (A := gmap string ecoords) (string_of_list_byte bytes) = NotJson ->
     match main w fs0, main w (delete CACHE_JSON fs0) with
     | (r, s, t), (r', s', t') =>
         r = r' /\ t = t' /\ net s = net s' /\
         geocode_cache s = geocode_cache s' /\
         fs s = replay t fs0 /\ fs s' = replay t (delete CACHE_JSON fs0)
     end).
Proof.
  split; [intros; now apply load_json_absent|].
  split; [intros; now apply (load_json_not_json _ _ _ bytes)|].
  split; [reflexivity|].
  intros bytes Hfs Hutf Hjson. unfold main.
  assert (Hin : load_json (delete CACHE_JSON fs0) INPUT_JSON ([] : list erecord)
                = load_json fs0 INPUT_JSON []).
  { unfold load_json. now rewrite lookup_delete_ne. }
  rewrite Hin.
  destruct (load_json fs0 INPUT_JSON []) as [[|item rest]|e].
  - simpl. repeat split.
  - rewrite (load_json_not_json fs0 CACHE_JSON ∅ bytes Hfs Hutf Hjson).
    rewrite (load_json_absent (delete CACHE_JSON fs0) CACHE_JSON ∅)
      by apply lookup_delete_eq.
    set (m := bind (enrich (item :: rest)) (fun museums' =>
                bind (emit EvSaveMap) (fun _ =>
                bind (print LogMapSaved) (fun _ => ret museums')))).
    assert (Hm : eblind m).
    { apply blind_bind; [apply blind_enrich|]. intros l.
      apply blind_bind; [apply blind_save_map|]. intros _.
      apply blind_bind; [apply blind_print|]. intros _. apply blind_ret. }
    set (s0 := {| net := w; fs := fs0; geocode_cache := ∅ |}).
    change {| net := w; fs := delete CACHE_JSON fs0; geocode_cache := ∅ |}
      with (with_fs s0 (delete CACHE_JSON fs0)).
    rewrite (Hm s0 (delete CACHE_JSON fs0)).
    destruct (m s0) as [[r s1] t1] eqn:Hrun.
    pose proof (blind_fs m s0 s1 r t1 Hm Hrun) as Hfs1.
    simpl. repeat split. exact Hfs1.
  - simpl. repeat split.
Qed.

(* ===================================================================== *)
(** * Enricher: the lookup and the loop, case by case                     *)
(* ===================================================================== *)

Lemma geocode_address_cases (address : string) (s : estate) :
  geocode_address address s =
  if String.eqb address "" then (Ok (None, None), s, []) else
  match geocode_cache s !! address with
  | Some c => (Ok c, s, [])
  | None =>
      match _geocode_nominatim address s with
      | (Raise e, s1, t1) => (Raise e, s1, t1)
      | (Ok c1, s1, t1) =>
          if is_none_pair c1 then
            match _geocode_nominatim (address ++ COUNTRY_SUFFIX) s1 with
            | (Raise e, s2, t2) => (Raise e, s2, t1 ++ t2)
            | (Ok c2, s2, t2) =>
                (Ok c2, stored address c2 s2,
                 t1 ++ t2
                 ++ [EvSaveCache (<[address := c2]> (geocode_cache s2));
                     EvSleep GEOCODE_SLEEP_SECONDS])
            end
          else
            (Ok c1, stored address c1 s1,
             t1 ++ [EvSaveCache (<[address := c1]> (geocode_cache s1));
                    EvSleep GEOCODE_SLEEP_SECONDS])
      end
  end.
Proof.
  destruct (String.eqb_spec address "") as [->|Hne]; [reflexivity|].
  destruct (geocode_cache s !! address) as [c|] eqn:Hc.
  - now apply lookup_hit_unfolds.
  - now apply lookup_miss_unfolds.
Qed.

Lemma handed_cases (i : nat) (r : erecord) (c : ecoords) :
  (lacks_coords (fst c) (snd c) = true /\ handed i r c = (Ok r, [])) \/
  (lacks_coords (fst c) (snd c) = false /\ refused (fst c) (snd c) = true /\
   handed i r c = (Raise ValueError, [])) \/
  (lacks_coords (fst c) (snd c) = false /\ refused (fst c) (snd c) = false /\
   handed i r c = (Ok r, marker i r)).
Proof.
  unfold handed.
  destruct (lacks_coords (fst c) (snd c)); [now left|].
  destruct (refused (fst c) (snd c)); [right; left | right; right]; auto.
Qed.

Lemma enrich_item_cases (i : nat) (done : list erecord) (item : erecord)
    (rest : list erecord) (s : estate) :
  enrich_item i done item rest s =
  if lacks_coords (get_latitude item) (get_longitude item) then
    match geocode_address (location item) s with
    | (Raise e, s1, t1) => (Raise e, s1, t1)
    | (Ok c, s1, t1) =>
        let item' := set_coords item c in
        (fst (handed i item' c),
         with_fs s1 (save_json (fs s1) INPUT_JSON (done ++ item' :: rest)),
         t1 ++ EvSaveMuseums (done ++ item' :: rest) :: snd (handed i item' c))
    end
  else
    (fst (handed i item (get_latitude item, get_longitude item)), s,
     snd (handed i item (get_latitude item, get_longitude item))).
Proof.
  unfold enrich_item, bind, handed.
  destruct (lacks_coords (get_latitude item) (get_longitude item)) eqn:Hl.
  - destruct (geocode_address (location item) s) as [[[c|e] s1] t1];
      [|reflexivity].
    destruct c as [lat lon]. simpl.
    destruct (lacks_coords lat lon); simpl; [now rewrite <- app_assoc|].
    destruct (refused lat lon); simpl; now rewrite <- app_assoc.
  - simpl. rewrite Hl.
    destruct (refused (get_latitude item) (get_longitude item)); reflexivity.
Qed.

(* ===================================================================== *)
(** * The record invariant                                                *)
(* ===================================================================== *)

Lemma cache_ok_insert (c : gmap string ecoords) (address : string)
    (v : ecoords) :
  cache_ok c -> pair_ok v = true -> cache_ok (<[address := v]> c).
Proof.
  intros Hc Hv k v' Hk.
  destruct (decide (address = k)) as [->|Hne].
  - rewrite lookup_insert_eq in Hk. now injection Hk as <-.
  - rewrite lookup_insert_ne in Hk by exact Hne. eapply Hc; eauto.
Qed.

Lemma geocode_address_ok (address : string) (s s' : estate)
    (r : result ecoords) (t : list eevent) :
  cache_ok (geocode_cache s) ->
  geocode_address address s = (r, s', t) ->
  cache_ok (geocode_cache s') /\
  (forall v, r = Ok v -> pair_ok v = true) /\
  (forall l, ~ In (EvSaveMuseums l) t).
Proof.
  intros Hc. rewrite geocode_address_cases.
  destruct (String.eqb address "").
  { intros [= <- <- <-]. repeat split; [exact Hc | now intros v [= <-] | auto]. }
  destruct (geocode_cache s !! address) as [c|] eqn:Hhit.
  { intros [= <- <- <-].
    repeat split; [exact Hc | intros v [= <-]; eapply Hc; eauto | auto]. }
  destruct (_geocode_nominatim address s) as [[r1 s1] t1] eqn:H1.
  pose proof (_geocode_nominatim_frame _ _ _ _ _ H1) as [_ Hc1].
  assert (Ht1 : forall l, ~ In (EvSaveMuseums l) t1).
  { intros l. pose proof H1 as H1'. rewrite _geocode_nominatim_cases in H1'.
    destruct (session_get (net s) address) as [[|r0] w1].
    - injection H1' as _ _ <-. simpl. intuition discriminate.
    - destruct (status_code r0 =? 429)%Z.
      + destruct (session_get w1 address) as [o2 w2].
        injection H1' as _ _ <-. simpl. intuition discriminate.
      + injection H1' as _ _ <-. simpl. intuition discriminate. }
  destruct r1 as [c1|e1].
  2:{ intros [= <- <- <-]. rewrite Hc1.
      repeat split; [exact Hc | discriminate | exact Ht1]. }
  pose proof (_geocode_nominatim_pair_ok _ _ _ _ _ H1) as Hp1.
  destruct (is_none_pair c1).
  - destruct (_geocode_nominatim (address ++ COUNTRY_SUFFIX) s1)
      as [[r2 s2] t2] eqn:H2.
    pose proof (_geocode_nominatim_frame _ _ _ _ _ H2) as [_ Hc2].
    assert (Ht2 : forall l, ~ In (EvSaveMuseums l) t2).
    { intros l. pose proof H2 as H2'. rewrite _geocode_nominatim_cases in H2'.
      destruct (session_get (net s1) (address ++ COUNTRY_SUFFIX))
        as [[|r0] w1].
      - injection H2' as _ _ <-. simpl. intuition discriminate.
      - destruct (status_code r0 =? 429)%Z.
        + destruct (session_get w1 (address ++ COUNTRY_SUFFIX)) as [o2 w2].
          injection H2' as _ _ <-. simpl. intuition discriminate.
        + injection H2' as _ _ <-. simpl. intuition discriminate. }
    destruct r2 as [c2|e2].
    + pose proof (_geocode_nominatim_pair_ok _ _ _ _ _ H2) as Hp2.
      intros [= <- <- <-]. unfold stored. simpl. rewrite Hc2, Hc1.
      repeat split.
      * now apply cache_ok_insert.
      * now intros v [= <-].
      * intros l Hin. rewrite !in_app_iff in Hin. simpl in Hin.
        destruct Hin as [Hin|[Hin|[Hin|[Hin|[]]]]];
          [eapply Ht1; eauto | eapply Ht2; eauto | discriminate..].
    + intros [= <- <- <-]. rewrite Hc2, Hc1.
      repeat split; [exact Hc | discriminate |].
      intros l Hin. rewrite in_app_iff in Hin.
      destruct Hin as [Hin|Hin]; [eapply Ht1 | eapply Ht2]; eauto.
  - intros [= <- <- <-]. unfold stored. simpl. rewrite Hc1.
    repeat split.
    + now apply cache_ok_insert.
    + now intros v [= <-].
    + intros l Hin. rewrite in_app_iff in Hin. simpl in Hin.
      destruct Hin as [Hin|[Hin|[Hin|[]]]];
        [eapply Ht1; eauto | discriminate..].
Qed.

Lemma record_ok_set_coords (item : erecord) (c : ecoords) :
  pair_ok c = true -> record_ok (set_coords item c) = true.
Proof. intros Hp. unfold record_ok. now destruct c. Qed.

Lemma has_coords_record_ok (item : erecord) :
  lacks_coords (get_latitude item) (get_longitude item) = false ->
  record_ok item = true.
Proof.
  unfold record_ok.
  now destruct (get_latitude item), (get_longitude item).
Qed.

Lemma not_in_marker (i : nat) (r : erecord) (l : list erecord) :
  ~ In (EvSaveMuseums l) (marker i r).
Proof. simpl. intuition discriminate. Qed.

Lemma handed_ok (i : nat) (r r' : erecord) (c : ecoords) :
  fst (handed i r c) = Ok r' -> r' = r.
Proof.
  destruct (handed_cases i r c) as [(_ & ->) | [(_ & _ & ->) | (_ & _ & ->)]];
    simpl; congruence.
Qed.

Lemma handed_no_save (i : nat) (r : erecord) (c : ecoords)
    (l : list erecord) :
  ~ In (EvSaveMuseums l) (snd (handed i r c)).
Proof.
  destruct (handed_cases i r c) as [(_ & ->) | [(_ & _ & ->) | (_ & _ & ->)]];
    simpl; intuition discriminate.
Qed.

Lemma handed_asks_nothing (i : nat) (r : erecord) (c : ecoords) :
  outcomes (snd (handed i r c)) = [] /\ gets (snd (handed i r c)) = [].
Proof.
  destruct (handed_cases i r c) as [(_ & ->) | [(_ & _ & ->) | (_ & _ & ->)]];
    now split.
Qed.

Lemma lacking_is_not_refused (lat lon : option float) :
  lacks_coords lat lon = true -> refused lat lon = false.
Proof. destruct lat, lon; simpl; congruence. Qed.

Lemma handed_accepts (i : nat) (r r' : erecord) (c : ecoords) :
  fst (handed i r c) = Ok r' -> refused (fst c) (snd c) = false.
Proof.
  destruct (handed_cases i r c) as [(H & _) | [(_ & _ & ->) | (_ & H & _)]];
    [intros _; now apply lacking_is_not_refused | discriminate | auto].
Qed.

Lemma enrich_item_ok (i : nat) (done : list erecord) (item : erecord)
    (rest : list erecord) (s s' : estate) (r : result erecord)
    (t : list eevent) :
  cache_ok (geocode_cache s) ->
  Forall (fun r => record_ok r = true) done ->
  Forall (fun r => record_ok r = true) rest ->
  enrich_item i done item rest s = (r, s', t) ->
  cache_ok (geocode_cache s') /\
  (forall item', r = Ok item' -> record_ok item' = true) /\
  saves_ok t.
Proof.
  intros Hc Hdone Hrest. rewrite enrich_item_cases.
  destruct (lacks_coords (get_latitude item) (get_longitude item)) eqn:Hl.
  - destruct (geocode_address (location item) s) as [[r1 s1] t1] eqn:Hg.
    destruct (geocode_address_ok _ _ _ _ _ Hc Hg) as (Hc1 & Hp & Hns).
    destruct r1 as [c|e].
    + specialize (Hp c eq_refl).
      intros [= <- <- <-]. simpl.
      repeat split; [exact Hc1 | |].
      * intros item' Hitem'. apply handed_ok in Hitem'. subst item'.
        now apply record_ok_set_coords.
      * intros l Hin. rewrite in_app_iff in Hin. simpl in Hin.
        destruct Hin as [Hin|[Hin|Hin]].
        -- now apply Hns in Hin.
        -- injection Hin as <-. apply Forall_app. split; [exact Hdone|].
           constructor; [now apply record_ok_set_coords | exact Hrest].
        -- now apply handed_no_save in Hin.
    + intros [= <- <- <-].
      repeat split; [exact Hc1 | discriminate |].
      intros l Hin. now apply Hns in Hin.
  - intros [= <- <- <-].
    repeat split; [exact Hc | |].
    + intros item' Hitem'. apply handed_ok in Hitem'. subst item'.
      now apply has_coords_record_ok.
    + intros l Hin. now apply handed_no_save in Hin.
Qed.

Lemma enrich_from_ok (todo : list erecord) :
  forall (i : nat) (done : list erecord) (s s' : estate)
         (r : result (list erecord)) (t : list eevent),
    cache_ok (geocode_cache s) ->
    Forall (fun r => record_ok r = true) done ->
    Forall (fun r => record_ok r = true) todo ->
    enrich_from i done todo s = (r, s', t) ->
    cache_ok (geocode_cache s') /\
    (forall l, r = Ok l -> Forall (fun r => record_ok r = true) l) /\
    saves_ok t.
Proof.
  induction todo as [|item rest IH]; intros i done s s' r t Hc Hdone Htodo.
  - simpl. intros [= <- <- <-].
    repeat split; [exact Hc | now intros l [= <-] | intros l []].
  - simpl. unfold bind.
    destruct (enrich_item i done item rest s) as [[r1 s1] t1] eqn:Hitem.
    apply Forall_cons in Htodo as [_ Hrest].
    destruct (enrich_item_ok _ _ _ _ _ _ _ _ Hc Hdone Hrest Hitem)
      as (Hc1 & Hok1 & Hs1).
    destruct r1 as [item'|e].
    + destruct (enrich_from (S i) (done ++ [item']) rest s1)
        as [[r2 s2] t2] eqn:Hrec.
      assert (Hdone' : Forall (fun r => record_ok r = true) (done ++ [item'])).
      { apply Forall_app. split; [exact Hdone|].
        constructor; [now apply Hok1 | constructor]. }
      destruct (IH _ _ _ _ _ _ Hc1 Hdone' Hrest Hrec) as (Hc2 & Hok2 & Hs2).
      intros [= <- <- <-].
      repeat split; [exact Hc2 | exact Hok2 |].
      intros l Hin. rewrite in_app_iff in Hin.
      destruct Hin as [Hin|Hin]; [now apply Hs1 | now apply Hs2].
    + intros [= <- <- <-].
      repeat split; [exact Hc1 | discriminate | exact Hs1].
Qed.

Lemma extract_record_ok (web : string -> option page) (c : card)
    (r : erecord) (evs : list eevent) :
  extract web c = (Ok r, evs) -> record_ok r = true.
Proof.
  unfold extract.
  destruct (a_href c) as [[href|]|]; try discriminate.
  destruct (web _); [|discriminate].
  destruct (img_src c); [|discriminate].
  now intros [= <- _].
Qed.

Lemma extracted_ok (web : string -> option page) (cards : list card) :
  Forall (fun r : erecord => record_ok r = true) (extracted web cards).
Proof.
  induction cards as [|c cards IH]; [constructor|].
  unfold extracted. simpl.
  destruct (extract web c) as [[r|e] evs] eqn:Hx; simpl; [|exact IH].
  constructor; [eapply extract_record_ok; eauto | exact IH].
Qed.

Lemma cache_ok_empty : cache_ok (float := float) ∅.
Proof. intros k v Hk. now rewrite lookup_empty in Hk. Qed.

(** C6.  Latitude and longitude come in pairs, and every step keeps it
    so.  A harvested record has neither, so appending keeps the
    invariant of the list.  A resolution attempt gives a full pair or
    [(None, None)].  A run of the Enricher over records and a cache whose
    entries are all such pairs (the empty cache is one, and so is every
    cache the Enricher has written) leaves such a cache, returns only
    records with both coordinates or neither, and writes only such
    records to the file, also when the run is cut short by an
    exception. *)
Theorem coordinates_come_in_pairs :
  (forall (web : string -> option page) (n i : nat) (cards : list card)
          (hs : harvest_state),
     Forall (fun r : erecord => record_ok r = true) (museums hs) ->
     Forall (fun r : erecord => record_ok r = true)
            (museums (scrape_cards web n i cards hs))) /\
  (forall (q : string) (s s' : estate) (c : ecoords) (t : list eevent),
     _geocode_nominatim q s = (Ok c, s', t) -> pair_ok c = true) /\
  (forall (l : list erecord) (s s' : estate) (r : result (list erecord))
          (t : list eevent),
     cache_ok (geocode_cache s) ->
     Forall (fun r => record_ok r = true) l ->
     enrich l s = (r, s', t) ->
     cache_ok (geocode_cache s') /\
     (forall l', r = Ok l' -> Forall (fun r => record_ok r = true) l') /\
     saves_ok t) /\
  cache_ok (float := float) ∅.
Proof.
  split; [|split; [|split]].
  - intros web n i cards hs Hok. rewrite scrape_cards_museums.
    apply Forall_app. split; [exact Hok | apply extracted_ok].
  - intros q s s' c t Hrun. eapply _geocode_nominatim_pair_ok; eauto.
  - intros l s s' r t Hc Hl Hrun.
    apply (enrich_from_ok l 1 [] s s' r t Hc (List.Forall_nil _) Hl Hrun).
  - apply cache_ok_empty.
Qed.

(* ===================================================================== *)
(** * Failures of the resolution service                                  *)
(* ===================================================================== *)

Lemma verdict_failure (o : get_outcome float) :
  failure o = true -> verdict o = Ok (None, None).
Proof.
  destruct o as [|resp]; [reflexivity|]. simpl.
  unfold read_response, raise_for_status, resp_json.
  destruct ((400 <=? status_code resp) && (status_code resp <? 600))%Z;
    [reflexivity|].
  simpl. destruct (body resp); first [discriminate | reflexivity].
Qed.

Lemma float_field_readable (items : list (string * json float))
    (tail : list (json float)) (k : string) (v : json float) :
  dict_get k items = Some v ->
  is_Ok (py_float v) = true ->
  exists x, float_field (JArr (JObj items :: tail)) k = Ok x.
Proof.
  intros Hk Hv. unfold float_field. simpl. rewrite Hk.
  destruct (py_float v) as [x|]; [now exists x | discriminate].
Qed.

Lemma verdict_tolerated (o : get_outcome float) :
  tolerated o = true -> is_Ok (verdict o) = true.
Proof.
  unfold tolerated. intros Htol. apply orb_prop in Htol as [Hf|Hr].
  { now rewrite verdict_failure. }
  destruct o as [|resp]; [reflexivity|]. simpl.
  unfold read_response, raise_for_status, resp_json.
  destruct ((400 <=? status_code resp) && (status_code resp <? 600))%Z;
    [reflexivity|].
  destruct (body resp) as [data| | |]; try discriminate.
  unfold readable in Hr.
  destruct (negb (truthy data)); [reflexivity|]. simpl in Hr.
  destruct data as [| | | | |[|[| | | | | |items] tail]|]; try discriminate.
  destruct (dict_get "lat" items) as [lat|] eqn:Hlat; [|discriminate].
  destruct (dict_get "lon" items) as [lon|] eqn:Hlon; [|discriminate].
  apply andb_prop in Hr as [Hflat Hflon].
  destruct (float_field_readable items tail "lat" lat Hlat Hflat) as [x ->].
  destruct (float_field_readable items tail "lon" lon Hlon Hflon) as [y ->].
  reflexivity.
Qed.

(** An attempt, seen through the answers it got: the result is the
    verdict on the last answer. *)
Lemma _geocode_nominatim_last (q : string) (s s' : estate)
    (r : result ecoords) (t : list eevent) :
  _geocode_nominatim q s = (r, s', t) ->
  exists os o, outcomes t = os ++ [o] /\ r = verdict o.
Proof.
  rewrite _geocode_nominatim_cases.
  destruct (session_get (net s) q) as [[|r1] w1].
  - intros [= <- <- <-]. now exists [], GetRaises.
  - destruct (status_code r1 =? 429)%Z.
    + destruct (session_get w1 q) as [o2 w2]. intros [= <- <- <-].
      now exists [GetResponse r1], o2.
    + intros [= <- <- <-]. now exists [], (GetResponse r1).
Qed.

Lemma _geocode_nominatim_failure (q : string) (s s' : estate)
    (r : result ecoords) (t : list eevent) :
  _geocode_nominatim q s = (r, s', t) ->
  Forall (fun o => failure o = true) (outcomes t) ->
  r = Ok (None, None).
Proof.
  intros Hrun Hall.
  destruct (_geocode_nominatim_last _ _ _ _ _ Hrun) as (os & o & Ho & ->).
  rewrite Ho in Hall. apply Forall_app in Hall as [_ Hlast].
  apply Forall_cons in Hlast as [Hlast _]. now apply verdict_failure.
Qed.

Lemma _geocode_nominatim_tolerated (q : string) (s s' : estate)
    (r : result ecoords) (t : list eevent) :
  _geocode_nominatim q s = (r, s', t) ->
  Forall (fun o => tolerated o = true) (outcomes t) ->
  is_Ok r = true.
Proof.
  intros Hrun Hall.
  destruct (_geocode_nominatim_last _ _ _ _ _ Hrun) as (os & o & Ho & ->).
  rewrite Ho in Hall. apply Forall_app in Hall as [_ Hlast].
  apply Forall_cons in Hlast as [Hlast _]. now apply verdict_tolerated.
Qed.

Lemma geocode_address_tolerated (address : string) (s s' : estate)
    (r : result ecoords) (t : list eevent) :
  geocode_address address s = (r, s', t) ->
  Forall (fun o => tolerated o = true) (outcomes t) ->
  is_Ok r = true.
Proof.
  rewrite geocode_address_cases.
  destruct (String.eqb address ""); [now intros [= <- <- <-]|].
  destruct (geocode_cache s !! address); [now intros [= <- <- <-]|].
  destruct (_geocode_nominatim address s) as [[r1 s1] t1] eqn:H1.
  destruct r1 as [c1|e1].
  - destruct (is_none_pair c1); [|now intros [= <- <- <-]].
    destruct (_geocode_nominatim (address ++ COUNTRY_SUFFIX) s1)
      as [[r2 s2] t2] eqn:H2.
    destruct r2 as [c2|e2]; [now intros [= <- <- <-]|].
    intros [= <- <- <-] Hall. rewrite outcomes_app in Hall.
    apply Forall_app in Hall as [_ Hall].
    apply (_geocode_nominatim_tolerated _ _ _ _ _ H2 Hall).
  - intros [= <- <- <-] Hall.
    apply (_geocode_nominatim_tolerated _ _ _ _ _ H1 Hall).
Qed.

Lemma geocode_address_failure (address : string) (s s' : estate)
    (r : result ecoords) (t : list eevent) :
  address <> "" ->
  geocode_cache s !! address = None ->
  geocode_address address s = (r, s', t) ->
  Forall (fun o => failure o = true) (outcomes t) ->
  r = Ok (None, None) /\
  geocode_cache s' = <[address := (None, None)]> (geocode_cache s) /\
  fs s' !! CACHE_JSON
  = Some (list_byte_of_string (json_dump (geocode_cache s'))).
Proof.
  intros Hne Hmiss. rewrite lookup_miss_unfolds by assumption.
  destruct (_geocode_nominatim address s) as [[r1 s1] t1] eqn:H1.
  pose proof (_geocode_nominatim_frame _ _ _ _ _ H1) as [_ Hc1].
  assert (Hr1 : Forall (fun o => failure o = true) (outcomes t1) ->
                r1 = Ok (None, None))
    by apply (_geocode_nominatim_failure _ _ _ _ _ H1).
  destruct r1 as [c1|e1].
  2:{ intros [= <- <- <-] Hall. now apply Hr1 in Hall. }
  destruct (is_none_pair c1) eqn:Hnone.
  - destruct (_geocode_nominatim (address ++ COUNTRY_SUFFIX) s1)
      as [[r2 s2] t2] eqn:H2.
    pose proof (_geocode_nominatim_frame _ _ _ _ _ H2) as [_ Hc2].
    assert (Hr2 : Forall (fun o => failure o = true) (outcomes t2) ->
                  r2 = Ok (None, None))
      by apply (_geocode_nominatim_failure _ _ _ _ _ H2).
    destruct r2 as [c2|e2].
    + intros [= <- <- <-] Hall. rewrite !outcomes_app in Hall.
      apply Forall_app in Hall as [_ Hall].
      apply Forall_app in Hall as [Hall _].
      apply Hr2 in Hall. injection Hall as ->.
      unfold stored. simpl. rewrite Hc2, Hc1.
      repeat split. apply save_json_lookup.
    + intros [= <- <- <-] Hall. rewrite outcomes_app in Hall.
      apply Forall_app in Hall as [_ Hall]. now apply Hr2 in Hall.
  - intros [= <- <- <-] Hall. rewrite outcomes_app in Hall.
    apply Forall_app in Hall as [Hall _].
    apply Hr1 in Hall. injection Hall as ->. discriminate.
Qed.

Lemma outcomes_marker (i : nat) (r : erecord) : outcomes (marker i r) = [].
Proof. reflexivity. Qed.

(** C5, as the code has it.  An attempt whose answers are all failures
    (a transport failure, an error status, the throttling status, a body
    on which [resp.json()] raises its JSON decode error) raises nothing
    and gives not found.  When that happens for a record without
    coordinates whose address is not in the cache, the record is left
    without coordinates and the address is cached, and written to the
    cache file, as not found.  A lookup raises nothing as long as every
    answer is a failure or a body that reads as no match or as a place
    with [lat] and [lon] that [float()] accepts. *)
Theorem failures_become_not_found :
  (forall (q : string) (s s' : estate) (r : result ecoords)
          (t : list eevent),
     _geocode_nominatim q s = (r, s', t) ->
     Forall (fun o => failure o = true) (outcomes t) ->
     r = Ok (None, None)) /\
  (forall (i : nat) (done : list erecord) (item : erecord)
          (rest : list erecord) (s s' : estate) (r : result erecord)
          (t : list eevent),
     location item <> "" ->
     geocode_cache s !! location item = None ->
     lacks_coords (get_latitude item) (get_longitude item) = true ->
     enrich_item i done item rest s = (r, s', t) ->
     Forall (fun o => failure o = true) (outcomes t) ->
     exists item',
       r = Ok item' /\
       get_latitude item' = None /\ get_longitude item' = None /\
       geocode_cache s'
       = <[location item := (None, None)]> (geocode_cache s) /\
       fs s' !! CACHE_JSON
       = Some (list_byte_of_string (json_dump (geocode_cache s')))) /\
  (forall (address : string) (s s' : estate) (r : result ecoords)
          (t : list eevent),
     geocode_address address s = (r, s', t) ->
     Forall (fun o => tolerated o = true) (outcomes t) ->
     is_Ok r = true).
Proof.
  split; [|split].
  - intros q s s' r t. apply _geocode_nominatim_failure.
  - intros i done item rest s s' r t Hne Hmiss Hl.
    rewrite enrich_item_cases, Hl.
    destruct (geocode_address (location item) s) as [[r1 s1] t1] eqn:Hg.
    pose proof (geocode_address_failure _ _ _ _ _ Hne Hmiss Hg) as Hfail.
    destruct r1 as [c|e].
    + intros Heq Hall.
      assert (Hall1 : Forall (fun o => failure o = true) (outcomes t1)).
      { injection Heq as _ _ <-. rewrite outcomes_app in Hall.
        now apply Forall_app in Hall as [Hall _]. }
      destruct (Hfail Hall1) as (Hr & Hc & Hf). injection Hr as ->.
      unfold handed in Heq. simpl in Heq. injection Heq as <- <- _.
      exists (set_coords item (None, None)). simpl.
      repeat split; [exact Hc|].
      rewrite save_json_other by discriminate. exact Hf.
    + intros [= <- <- <-] Hall.
      destruct (Hfail Hall) as (Hr & _). discriminate.
  - intros address s s' r t. apply geocode_address_tolerated.
Qed.

(* ===================================================================== *)
(** * Running the Enricher twice                                          *)
(* ===================================================================== *)

Lemma known_noop (address : string) (v : ecoords) (s : estate) :
  known (geocode_cache s) address v ->
  geocode_address address s = (Ok v, s, []).
Proof.
  unfold known. rewrite geocode_address_cases.
  destruct (String.eqb address ""); [now intros ->|].
  now intros ->.
Qed.

(** A lookup only adds to the cache, and what it returns is what the
    cache knows afterwards. *)
Lemma geocode_address_grows (address : string) (s s' : estate)
    (r : result ecoords) (t : list eevent) :
  geocode_address address s = (r, s', t) ->
  (forall k v, geocode_cache s !! k = Some v ->
               geocode_cache s' !! k = Some v) /\
  (forall v, r = Ok v -> known (geocode_cache s') address v).
Proof.
  rewrite geocode_address_cases. unfold known.
  destruct (String.eqb address "") eqn:Hempty.
  { intros [= <- <- <-]. split; [auto | now intros v [= <-]]. }
  destruct (geocode_cache s !! address) as [c|] eqn:Hhit.
  { intros [= <- <- <-]. split; [auto | now intros v [= <-]]. }
  assert (Hins : forall c k v, geocode_cache s !! k = Some v ->
                   <[address := c]> (geocode_cache s) !! k = Some v).
  { intros c k v Hk. rewrite lookup_insert_ne; [exact Hk|].
    intros <-. congruence. }
  destruct (_geocode_nominatim address s) as [[r1 s1] t1] eqn:H1.
  pose proof (_geocode_nominatim_frame _ _ _ _ _ H1) as [_ Hc1].
  destruct r1 as [c1|e1].
  2:{ intros [= <- <- <-]. rewrite Hc1. split; [auto | discriminate]. }
  destruct (is_none_pair c1).
  - destruct (_geocode_nominatim (address ++ COUNTRY_SUFFIX) s1)
      as [[r2 s2] t2] eqn:H2.
    pose proof (_geocode_nominatim_frame _ _ _ _ _ H2) as [_ Hc2].
    destruct r2 as [c2|e2].
    + intros [= <- <- <-]. unfold stored. simpl. rewrite Hc2, Hc1.
      split; [apply Hins|]. intros v [= <-]. apply lookup_insert_eq.
    + intros [= <- <- <-]. rewrite Hc2, Hc1. split; [auto | discriminate].
  - intros [= <- <- <-]. unfold stored. simpl. rewrite Hc1.
    split; [apply Hins|]. intros v [= <-]. apply lookup_insert_eq.
Qed.

Lemma known_grows (c c' : gmap string ecoords) (address : string)
    (v : ecoords) :
  (forall k v, c !! k = Some v -> c' !! k = Some v) ->
  known c address v -> known c' address v.
Proof.
  unfold known. intros Hsub.
  destruct (String.eqb address ""); [auto | apply Hsub].
Qed.

Lemma settled_grows (c c' : gmap string ecoords) (r : erecord) :
  (forall k v, c !! k = Some v -> c' !! k = Some v) ->
  settled c r -> settled c' r.
Proof.
  intros Hsub [Hhas | (v & Hset & Hknown)]; [now left | right].
  exists v. split; [exact Hset | eapply known_grows; eauto].
Qed.

Lemma set_coords_twice (item : erecord) (v : ecoords) :
  set_coords item v = set_coords (set_coords item v) v.
Proof. reflexivity. Qed.

(** One pass of the loop: the cache only grows, the record that comes
    out is settled and is not one the map refuses, and either the record
    had its coordinates and nothing happened to the state, or the file
    now holds the list with that record updated. *)
Lemma enrich_item_first (i : nat) (done : list erecord) (item : erecord)
    (rest : list erecord) (s s' : estate) (item' : erecord)
    (t : list eevent) :
  enrich_item i done item rest s = (Ok item', s', t) ->
  (forall k v, geocode_cache s !! k = Some v ->
               geocode_cache s' !! k = Some v) /\
  settled (geocode_cache s') item' /\
  refused (get_latitude item') (get_longitude item') = false /\
  ((has_coords item /\ item' = item /\ s' = s) \/
   fs s' !! INPUT_JSON
   = Some (list_byte_of_string (json_dump (done ++ item' :: rest)))).
Proof.
  rewrite enrich_item_cases. unfold has_coords.
  destruct (lacks_coords (get_latitude item) (get_longitude item)) eqn:Hl.
  - destruct (geocode_address (location item) s) as [[r1 s1] t1] eqn:Hg.
    destruct (geocode_address_grows _ _ _ _ _ Hg) as [Hsub Hknown].
    destruct r1 as [c|e]; [|discriminate].
    cbv zeta. intros Heq. injection Heq as Hh <- _.
    pose proof (handed_accepts _ _ _ _ Hh) as Hacc.
    apply handed_ok in Hh. subst item'. simpl.
    split; [exact Hsub|]. split; [|split].
    + right. exists c. split; [apply set_coords_twice | now apply Hknown].
    + exact Hacc.
    + right. apply save_json_lookup.
  - intros Heq. injection Heq as Hh <- _.
    pose proof (handed_accepts _ _ _ _ Hh) as Hacc.
    apply handed_ok in Hh. subst item'.
    split; [auto|]. split; [now left|]. split; [exact Hacc | left; auto].
Qed.

Lemma enrich_from_first (todo : list erecord) :
  forall (i : nat) (done : list erecord) (s s' : estate)
         (l : list erecord) (t : list eevent),
    enrich_from i done todo s = (Ok l, s', t) ->
    (forall k v, geocode_cache s !! k = Some v ->
                 geocode_cache s' !! k = Some v) /\
    exists todo',
      l = done ++ todo' /\
      Forall (settled (geocode_cache s')) todo' /\
      Forall (fun r => refused (get_latitude r) (get_longitude r) = false)
        todo' /\
      ((todo' = todo /\ Forall has_coords todo /\ s' = s) \/
       fs s' !! INPUT_JSON = Some (list_byte_of_string (json_dump l))).
Proof.
  induction todo as [|item rest IH]; intros i done s s' l t.
  - simpl. intros [= <- <- <-]. split; [auto|].
    exists []. rewrite app_nil_r.
    split; [reflexivity|]. split; [constructor|]. split; [constructor|].
    left. repeat split. constructor.
  - simpl. unfold bind.
    destruct (enrich_item i done item rest s) as [[r1 s1] t1] eqn:Hitem.
    destruct r1 as [item'|e]; [|discriminate].
    destruct (enrich_from (S i) (done ++ [item']) rest s1)
      as [[r2 s2] t2] eqn:Hrec.
    intros [= -> <- <-].
    destruct (enrich_item_first _ _ _ _ _ _ _ _ Hitem)
      as (Hsub1 & Hset1 & Hacc1 & Hfs1).
    destruct (IH _ _ _ _ _ _ Hrec)
      as (Hsub2 & rest' & -> & Hset2 & Hacc2 & Hfs2).
    split; [auto|].
    exists (item' :: rest'). rewrite <- app_assoc. simpl.
    split; [reflexivity|]. split.
    { constructor; [eapply settled_grows; eauto | exact Hset2]. }
    split; [now constructor|].
    destruct Hfs2 as [(-> & Hhas2 & ->) | Hfile].
    + destruct Hfs1 as [(Hhas1 & -> & ->) | Hfile1].
      * left. repeat split. now constructor.
      * right. exact Hfile1.
    + right. rewrite <- app_assoc in Hfile. exact Hfile.
Qed.

(** A list of settled records that the map does not refuse and whose
    file is up to date goes through the loop unchanged: the state is
    left as it was and no request is sent. *)
Lemma enrich_from_second (todo : list erecord) :
  forall (i : nat) (done : list erecord) (s : estate),
    Forall (settled (geocode_cache s)) todo ->
    Forall (fun r => refused (get_latitude r) (get_longitude r) = false)
      todo ->
    (Forall has_coords todo \/
     fs s !! INPUT_JSON
     = Some (list_byte_of_string (json_dump (done ++ todo)))) ->
    exists t,
      enrich_from i done todo s = (Ok (done ++ todo), s, t) /\
      outcomes t = [] /\ gets t = [].
Proof.
  induction todo as [|item rest IH]; intros i done s Hset Hacc Hfile.
  - exists []. simpl. now rewrite app_nil_r.
  - apply Forall_cons in Hset as [Hitem Hrest].
    apply Forall_cons in Hacc as [Hacc Haccs].
    assert (Hstep : exists t1, enrich_item i done item rest s = (Ok item, s, t1)
                               /\ outcomes t1 = [] /\ gets t1 = []).
    { rewrite enrich_item_cases.
      destruct (lacks_coords (get_latitude item) (get_longitude item)) eqn:Hl.
      - destruct Hitem as [Hhas | (v & Hv & Hknown)];
          [unfold has_coords in Hhas; congruence|].
        assert (Hlv : lacks_coords (fst v) (snd v) = true).
        { rewrite Hv in Hl. exact Hl. }
        rewrite (known_noop _ _ _ Hknown). cbv zeta. unfold handed.
        rewrite Hlv. simpl. rewrite <- Hv.
        destruct Hfile as [Hall | Hfile].
        { apply Forall_cons in Hall as [Hhas _].
          unfold has_coords in Hhas. congruence. }
        assert (Hsame : with_fs s (save_json (fs s) INPUT_JSON
                                     (done ++ item :: rest)) = s).
        { unfold save_json. rewrite insert_id by exact Hfile.
          apply with_fs_same. }
        rewrite Hsame. eexists. split; [reflexivity|]. now split.
      - unfold handed. cbn [fst snd]. rewrite Hl, Hacc.
        eexists. split; [reflexivity|]. now split. }
    destruct Hstep as (t1 & Hstep & Ho1 & Hg1).
    destruct (IH (S i) (done ++ [item]) s Hrest Haccs)
      as (t2 & Hrec & Ho2 & Hg2).
    { destruct Hfile as [Hall | Hfile].
      - left. now apply Forall_cons in Hall as [_ Hall].
      - right. now rewrite <- app_assoc. }
    exists (t1 ++ t2). simpl. unfold bind. rewrite Hstep, Hrec.
    rewrite <- app_assoc. simpl.
    now rewrite outcomes_app, gets_app, Ho1, Ho2, Hg1, Hg2.
Qed.

(** C1.  When a run of the Enricher over a record list, from any state
    (any cache, any files, any service), comes to its end, a second run
    over the records and the state it left returns the same records and
    leaves that state as it is: the same cache, the same files, the
    service untouched.  The second run sends no request. *)
Theorem enrich_twice (museums : list erecord) (s s1 : estate)
    (museums1 : list erecord) (t1 : list eevent) :
  enrich museums s = (Ok museums1, s1, t1) ->
  exists t2,
    enrich museums1 s1 = (Ok museums1, s1, t2) /\
    outcomes t2 = [] /\ gets t2 = [].
Proof.
  intros Hrun.
  destruct (enrich_from_first museums 1 [] s s1 museums1 t1 Hrun)
    as (_ & todo' & Hl & Hset & Hacc & Hfile).
  simpl in Hl. subst todo'.
  apply (enrich_from_second museums1 1 [] s1 Hset Hacc).
  destruct Hfile as [(-> & Hhas & _) | Hfile]; [now left | now right].
Qed.

End EnricherFacts.

(* ===================================================================== *)
(** * The properties at work on the concrete world                        *)
(* ===================================================================== *)

Example run_end_to_end_not_found :
  match enrich [a_museum] (empty_state [no_match; no_match]) with
  | (r, s, t) =>
      r = Ok [unfound_museum] /\
      geocode_cache s = {["Main St 1" := (None, None)]} /\
      gets t = ["Main St 1"; "Main St 1, Netherlands"]
  end.
Proof. vm_compute. auto. Qed.

(** A latitude that [float()] accepts and the map does not: the lookup
    ends well and is cached and written, and the run raises at the
    marker. *)
Example run_nan_raises_at_marker :
  match enrich [nan_museum]
          {| net := [nan_place]; fs := ∅; geocode_cache := ∅ |} with
  | (r, s, t) =>
      tolerated nan_place = true /\
      r = Raise ValueError /\
      geocode_cache s !! "Main St 1" = Some (Some None, Some (Some 5.2%Q)) /\
      gets t = ["Main St 1"] /\
      markers t = []
  end.
Proof. vm_compute. repeat split. Qed.

Example run_throttled_then_found :
  _geocode_nominatim "Main St 1" (empty_state [throttled; place "52.1" "5.2"])
  = (Ok (Some 52.1%Q, Some 5.2%Q), empty_state [],
     [EvGet "Main St 1" throttled; EvSleep 5;
      EvGet "Main St 1" (place "52.1" "5.2")]).
Proof. vm_compute. reflexivity. Qed.

Lemma enrich_twice_witness :
  fst (fst first_run) = Ok [found_museum] /\
  exists t2,
    enrich [found_museum] (snd (fst first_run))
    = (Ok [found_museum], snd (fst first_run), t2) /\
    outcomes t2 = [] /\ gets t2 = [].
Proof.
  split; [vm_compute; reflexivity|].
  apply (enrich_twice [a_museum] (empty_state [place "52.1" "5.2"])
           (snd (fst first_run)) [found_museum] (snd first_run)).
  vm_compute. reflexivity.
Defined.

Lemma geocode_address_hit_witness :
  geocode_address "Main St 1" warm_state
  = (Ok (Some 52.1%Q, Some 5.2%Q), warm_state, []) /\
  gets (snd (geocode_address "Main St 1" warm_state)) = [].
Proof.
  apply (geocode_address_hit "Main St 1" (Some 52.1%Q, Some 5.2%Q) warm_state).
  - discriminate.
  - vm_compute. reflexivity.
Defined.

Lemma geocode_address_miss_witness :
  exists n m,
    gets (snd (geocode_address "Main St 1"
                 (empty_state [no_match; place "52.1" "5.2"])))
    = replicate n "Main St 1"
      ++ replicate m ("Main St 1" ++ COUNTRY_SUFFIX)%string /\
    (n = 1 \/ n = 2) /\ (m = 0 \/ m = 1 \/ m = 2) /\
    (m <> 0 <->
     fst (fst (_geocode_nominatim "Main St 1"
                 (empty_state [no_match; place "52.1" "5.2"])))
     = Ok (None, None)).
Proof.
  apply (geocode_address_miss "Main St 1"
           (empty_state [no_match; place "52.1" "5.2"])).
  - discriminate.
  - vm_compute. reflexivity.
Defined.

Lemma throttled_request_is_retried_once_witness :
  _geocode_nominatim "Main St 1" (empty_state [throttled; place "52.1" "5.2"])
  = (Ok (Some 52.1%Q, Some 5.2%Q), empty_state [],
     [EvGet "Main St 1" throttled; EvSleep RETRY_BACKOFF_SECONDS;
      EvGet "Main St 1" (place "52.1" "5.2")]).
Proof.
  destruct (throttled_request_is_retried_once "Main St 1"
              (empty_state [throttled; place "52.1" "5.2"])
              {| status_code := 429; body := NotJson |} [place "52.1" "5.2"]
              (place "52.1" "5.2") [])
    as (r & Hrun & _ & _ & _ & Hread);
    [vm_compute; reflexivity | reflexivity | vm_compute; reflexivity |].
  destruct (Hread _ eq_refl) as (_ & _ & Hplace); [simpl; lia|].
  rewrite Hrun.
  rewrite (Hplace (JArr [JObj [("lat", JStr "52.1"); ("lon", JStr "5.2")]])
             (JObj [("lat", JStr "52.1"); ("lon", JStr "5.2")])
             (JStr "52.1") (JStr "5.2") 52.1%Q 5.2%Q);
    try (vm_compute; reflexivity).
Defined.

Lemma failures_become_not_found_witness :
  exists item',
    fst (fst (enrich_item 1 [] a_museum [] (empty_state []))) = Ok item' /\
    get_latitude item' = None /\ get_longitude item' = None.
Proof.
  destruct (proj1 (proj2 (failures_become_not_found
                            (float := Q) (W := list (get_outcome Q))))
              1 [] a_museum [] (empty_state [])
              (snd (fst (enrich_item 1 [] a_museum [] (empty_state []))))
              (fst (fst (enrich_item 1 [] a_museum [] (empty_state []))))
              (snd (enrich_item 1 [] a_museum [] (empty_state []))))
    as (item' & Hr & Hlat & Hlon & _).
  - discriminate.
  - vm_compute. reflexivity.
  - vm_compute. reflexivity.
  - vm_compute. reflexivity.
  - vm_compute. repeat constructor.
  - exists item'. auto.
Defined.

(** A body that is JSON but not a list of places makes the attempt, and
    with it the run, raise. *)
Lemma unexpected_body_raises :
  failure odd_body = false /\
  fst (fst (_geocode_nominatim "Main St 1" (empty_state [odd_body])))
  = Raise KeyError /\
  fst (fst (enrich [a_museum] (empty_state [odd_body]))) = Raise KeyError.
Proof. vm_compute. auto. Qed.

Lemma coordinates_come_in_pairs_witness :
  Forall (fun r : record Q => record_ok r = true)
    (museums (scrape_cards bare_site 1 1 [plain_card] fresh_harvest)) /\
  (forall l', fst (fst first_run) = Ok l' ->
              Forall (fun r => record_ok r = true) l').
Proof.
  destruct (coordinates_come_in_pairs
              (float := Q) (W := list (get_outcome Q)))
    as (Hharvest & _ & Henrich & Hempty).
  split.
  - apply Hharvest. vm_compute. constructor.
  - destruct (Henrich [a_museum] (empty_state [place "52.1" "5.2"])
                (snd (fst first_run)) (fst (fst first_run)) (snd first_run))
      as (_ & Hok & _).
    + exact Hempty.
    + repeat constructor.
    + vm_compute. reflexivity.
    + exact Hok.
Defined.

Lemma load_more_retries_without_bound_witness :
  load_more (float := Q) 3 obstructed_twice 0 []
  = Some (Ok tt, [] ++ retries 2 ++ [EvPrint LogNoMore]) /\
  forall fuel, fuel <= 2 ->
    load_more (float := Q) fuel obstructed_twice 0 [] = None.
Proof.
  apply (load_more_retries_without_bound (float := Q) obstructed_twice 2 []).
  - intros i Hi. destruct i as [|[|i]]; [reflexivity | reflexivity | lia].
  - reflexivity.
Defined.

(** A button that is obstructed on every pass keeps the loop going for
    ever: no number of passes ends it. *)
Lemma load_more_never_ends :
  ~ exists fuel r, load_more (float := Q) fuel always_obstructed 0 [] = Some r.
Proof.
  intros (fuel & r & Hrun).
  rewrite load_more_obstructed_runs_out in Hrun; [discriminate|].
  reflexivity.
Qed.

Lemma scrape_cards_isolates_failures_witness :
  museums (scrape_cards bare_site 2 1 [linkless_card; plain_card] fresh_harvest)
  = museums fresh_harvest ++ extracted bare_site [linkless_card; plain_card] /\
  fst (extract (float := Q) bare_site plain_card)
  = Ok {| name := UNKNOWN; thumbnail := Some "a.jpg";
          link := "https://www.museum.nl/nl/museum/a";
          location := UNKNOWN; latitude := None; longitude := None |}.
Proof.
  destruct (scrape_cards_isolates_failures (float := Q) bare_site 2 1
              plain_card [linkless_card; plain_card] fresh_harvest)
    as (_ & Hall & _ & Hok).
  split; [exact Hall|].
  apply (Hok "/nl/museum/a" (Some "a.jpg") {| h1 := None; address := None |});
    reflexivity.
Defined.

(** A card whose detail page has neither title nor address block is not
    skipped: its record is appended, with "Unknown" for both. *)
Lemma missing_detail_elements_are_not_skipped :
  bare_site "https://www.museum.nl/nl/museum/a"
  = Some {| h1 := None; address := None |} /\
  museums (scrape_cards (float := Q) bare_site 1 1 [plain_card] fresh_harvest)
  = [{| name := "Unknown"; thumbnail := Some "a.jpg";
        link := "https://www.museum.nl/nl/museum/a";
        location := "Unknown"; latitude := None; longitude := None |}] /\
  museums (scrape_cards (float := Q) bare_site 1 1 [plain_card] fresh_harvest)
  <> museums fresh_harvest.
Proof. vm_compute. repeat split. discriminate. Qed.

Lemma load_json_gives_default_witness :
  load_json files_garbled_cache CACHE_JSON (∅ : gmap string (coords Q))
  = Ok ∅ /\
  fst (fst (main (W := list (get_outcome Q)) [] files_garbled_cache))
  = fst (fst (main (W := list (get_outcome Q)) []
                (delete CACHE_JSON files_garbled_cache))).
Proof.
  destruct (load_json_gives_default (float := Q) (W := list (get_outcome Q))
              [] files_garbled_cache) as (_ & Hgarbled & _ & Hmain).
  split.
  - apply (Hgarbled _ _ CACHE_JSON ∅ (list_byte_of_string "{oops"));
      vm_compute; reflexivity.
  - specialize (Hmain (list_byte_of_string "{oops")).
    destruct (main [] files_garbled_cache) as [[r s] t].
    destruct (main [] (delete CACHE_JSON files_garbled_cache)) as [[r' s'] t'].
    apply Hmain; vm_compute; reflexivity.
Defined.

(** C9, where the code misses it.  A cache file cut between the two
    bytes of a letter is present and unparseable, and [load_json] does
    not give the default on it: reading the file raises
    [UnicodeDecodeError], which [except json.JSONDecodeError] lets
    through.  [main] ends there, before any museum is looked at, where
    on the same files without the cache file it goes on and resolves the
    museum.  The same happens, with [RecursionError], on a cache file of
    two thousand opening brackets. *)
Lemma undecodable_cache_file_raises :
  files_undecodable_cache !! CACHE_JSON = Some cut_bytes /\
  utf8_valid cut_bytes = false /\
  load_json files_undecodable_cache CACHE_JSON (∅ : gmap string (coords Q))
  = Raise UnicodeDecodeError /\
  load_json files_undecodable_cache CACHE_JSON (∅ : gmap string (coords Q))
  <> Ok ∅ /\
  main [place "52.1" "5.2"] files_undecodable_cache
  = (Raise UnicodeDecodeError,
     {| net := [place "52.1" "5.2"]; fs := files_undecodable_cache;
        geocode_cache := ∅ |}, []) /\
  fst (fst (main [place "52.1" "5.2"]
              (delete CACHE_JSON files_undecodable_cache)))
  = Ok [found_museum] /\
  utf8_valid (list_byte_of_string deep_text) = true /\
  load_json ({[ CACHE_JSON := list_byte_of_string deep_text ]} : files)
    CACHE_JSON (∅ : gmap string (coords Q))
  = Raise RecursionError.
Proof. vm_compute. repeat split. discriminate. Qed.

(* ===================================================================== *)
(** * Enricher: what a run asks for                                       *)
(* ===================================================================== *)

Section RunFacts.

Context {float : Type} `{!PyFloat float}.
Context {W : Type} `{!Service float W}.
Context `{!JsonCodec (list (record float))}.
Context `{!JsonCodec (gmap string (coords float))}.

#[local] Abbreviation rstate := (state float W).
#[local] Abbreviation rcoords := (coords float).
#[local] Abbreviation rrecord := (record float).
#[local] Abbreviation revent := (event float).

(** The queries a lookup sends carry its address, bare or with the
    suffix; there are at most four, and none unless the address is
    non-empty and missing from the cache. *)
Lemma geocode_address_asks (address : string) (s s' : rstate)
    (r : result rcoords) (t : list revent) :
  geocode_address address s = (r, s', t) ->
  Forall (fun q => q = address \/ q = (address ++ COUNTRY_SUFFIX)%string)
         (gets t) /\
  length (gets t) <= 4 /\
  (gets t = [] \/ (address <> "" /\ geocode_cache s !! address = None)).
Proof.
  rewrite geocode_address_cases.
  destruct (String.eqb_spec address "") as [->|Hne].
  { intros [= <- <- <-]. simpl. repeat split; [constructor | lia | now left]. }
  destruct (geocode_cache s !! address) as [c|] eqn:Hhit.
  { intros [= <- <- <-]. simpl. repeat split; [constructor | lia | now left]. }
  destruct (_geocode_nominatim address s) as [[r1 s1] t1] eqn:H1.
  pose proof (_geocode_nominatim_gets _ _ _ _ _ H1) as Hg1.
  assert (Hq1 : Forall (fun q => q = address
                          \/ q = (address ++ COUNTRY_SUFFIX)%string) (gets t1)
                /\ length (gets t1) <= 2).
  { destruct Hg1 as [-> | ->]; split; try (simpl; lia);
      repeat (constructor; [now left|]); constructor. }
  destruct Hq1 as [Hq1 Hn1].
  destruct r1 as [c1|e1].
  2:{ intros [= <- <- <-]. repeat split; [exact Hq1 | lia | now right]. }
  destruct (is_none_pair c1).
  - destruct (_geocode_nominatim (address ++ COUNTRY_SUFFIX) s1)
      as [[r2 s2] t2] eqn:H2.
    pose proof (_geocode_nominatim_gets _ _ _ _ _ H2) as Hg2.
    assert (Hq2 : Forall (fun q => q = address
                            \/ q = (address ++ COUNTRY_SUFFIX)%string) (gets t2)
                  /\ length (gets t2) <= 2).
    { destruct Hg2 as [-> | ->]; split; try (simpl; lia);
        repeat (constructor; [now right|]); constructor. }
    destruct Hq2 as [Hq2 Hn2].
    destruct r2 as [c2|e2]; intros [= <- <- <-];
      rewrite !gets_app; simpl; rewrite ?app_nil_r;
      (repeat split;
       [apply Forall_app; now split
       | rewrite length_app; lia
       | now right]).
  - intros [= <- <- <-]. rewrite gets_app. simpl. rewrite app_nil_r.
    repeat split; [exact Hq1 | lia | now right].
Qed.

Lemma gets_marker (i : nat) (r : rrecord) : gets (marker i r) = [].
Proof. reflexivity. Qed.

Lemma enrich_item_asks (i : nat) (done : list rrecord) (item : rrecord)
    (rest : list rrecord) (s s' : rstate) (r : result rrecord)
    (t : list revent) :
  enrich_item i done item rest s = (r, s', t) ->
  Forall (fun q => q = location item
                   \/ q = (location item ++ COUNTRY_SUFFIX)%string) (gets t) /\
  length (gets t) <= 4 /\
  (gets t = [] \/
   (lacks_coords (get_latitude item) (get_longitude item) = true /\
    location item <> "" /\ geocode_cache s !! location item = None)).
Proof.
  rewrite enrich_item_cases.
  destruct (lacks_coords (get_latitude item) (get_longitude item)) eqn:Hl.
  - destruct (geocode_address (location item) s) as [[r1 s1] t1] eqn:Hg.
    destruct (geocode_address_asks _ _ _ _ _ Hg) as (Hq & Hn & Hmiss).
    assert (Hgets : forall tail : list revent, gets tail = [] ->
              gets (t1 ++ tail) = gets t1).
    { intros tail Htail. now rewrite gets_app, Htail, app_nil_r. }
    destruct r1 as [c|e]; cbv zeta; intros [= <- <- <-].
    + rewrite Hgets by (simpl; apply handed_asks_nothing).
      repeat split; [exact Hq | exact Hn |].
      destruct Hmiss as [Hnone | [Hne Hnot]]; [now left | right; auto].
    + repeat split; [exact Hq | exact Hn |].
      destruct Hmiss as [Hnone | [Hne Hnot]]; [now left | right; auto].
  - intros [= <- <- <-]. rewrite (proj2 (handed_asks_nothing _ _ _)).
    simpl. repeat split; [constructor | lia | now left].
Qed.

(** One pass of the loop only adds to the cache, however it ends. *)
Lemma enrich_item_grows (i : nat) (done : list rrecord) (item : rrecord)
    (rest : list rrecord) (s s' : rstate) (r : result rrecord)
    (t : list revent) :
  enrich_item i done item rest s = (r, s', t) ->
  forall k v, geocode_cache s !! k = Some v -> geocode_cache s' !! k = Some v.
Proof.
  rewrite enrich_item_cases.
  destruct (lacks_coords (get_latitude item) (get_longitude item)).
  - destruct (geocode_address (location item) s) as [[r1 s1] t1] eqn:Hg.
    destruct (geocode_address_grows _ _ _ _ _ Hg) as [Hsub _].
    destruct r1 as [c|e]; cbv zeta; intros [= <- <- <-]; exact Hsub.
  - intros [= <- <- <-]. auto.
Qed.

Lemma enrich_from_grows (todo : list rrecord) :
  forall (i : nat) (done : list rrecord) (s s' : rstate)
         (r : result (list rrecord)) (t : list revent),
    enrich_from i done todo s = (r, s', t) ->
    forall k v, geocode_cache s !! k = Some v ->
                geocode_cache s' !! k = Some v.
Proof.
  induction todo as [|item rest IH]; intros i done s s' r t.
  - simpl. intros [= <- <- <-]. auto.
  - simpl. unfold bind.
    destruct (enrich_item i done item rest s) as [[r1 s1] t1] eqn:Hitem.
    pose proof (enrich_item_grows _ _ _ _ _ _ _ _ Hitem) as Hsub1.
    destruct r1 as [item'|e].
    + destruct (enrich_from (S i) (done ++ [item']) rest s1)
        as [[r2 s2] t2] eqn:Hrec.
      intros [= <- <- <-] k v Hk. eapply IH; eauto.
    + intros [= <- <- <-]. exact Hsub1.
Qed.

Lemma enrich_from_asks (todo : list rrecord) :
  forall (i : nat) (done : list rrecord) (s s' : rstate)
         (r : result (list rrecord)) (t : list revent),
    enrich_from i done todo s = (r, s', t) ->
    Forall (fun q =>
              exists item,
                In item todo /\
                lacks_coords (get_latitude item) (get_longitude item) = true /\
                location item <> "" /\
                geocode_cache s !! location item = None /\
                (q = location item
                 \/ q = (location item ++ COUNTRY_SUFFIX)%string))
           (gets t) /\
    length (gets t) <= 4 * length (lacking todo).
Proof.
  induction todo as [|item rest IH]; intros i done s s' r t.
  - simpl. intros [= <- <- <-]. simpl. split; [constructor | lia].
  - cbn [enrich_from]. unfold bind.
    destruct (enrich_item i done item rest s) as [[r1 s1] t1] eqn:Hitem.
    destruct (enrich_item_asks _ _ _ _ _ _ _ _ Hitem) as (Hq1 & Hn1 & Hm1).
    pose proof (enrich_item_grows _ _ _ _ _ _ _ _ Hitem) as Hsub1.
    assert (Hhead : Forall (fun q =>
              exists item0,
                In item0 (item :: rest) /\
                lacks_coords (get_latitude item0) (get_longitude item0) = true /\
                location item0 <> "" /\
                geocode_cache s !! location item0 = None /\
                (q = location item0
                 \/ q = (location item0 ++ COUNTRY_SUFFIX)%string))
             (gets t1)).
    { destruct Hm1 as [-> | (Hl & Hne & Hmiss)]; [constructor|].
      eapply List.Forall_impl; [|exact Hq1]. intros q Hq.
      exists item. simpl. auto. }
    assert (Hlen1 : length (gets t1)
                    <= 4 * length (lacking [item])).
    { unfold lacking. simpl.
      destruct Hm1 as [-> | (Hl & _)]; [simpl; lia|].
      rewrite Hl. simpl. lia. }
    assert (Hsplit : length (lacking (item :: rest))
                     = length (lacking [item]) + length (lacking rest)).
    { unfold lacking. simpl.
      destruct (lacks_coords (get_latitude item) (get_longitude item));
        simpl; lia. }
    destruct r1 as [item'|e].
    + destruct (enrich_from (S i) (done ++ [item']) rest s1)
        as [[r2 s2] t2] eqn:Hrec.
      destruct (IH _ _ _ _ _ _ Hrec) as (Hq2 & Hn2).
      intros [= <- <- <-]. rewrite gets_app. split.
      * apply Forall_app. split; [exact Hhead|].
        eapply List.Forall_impl; [|exact Hq2].
        intros q (item0 & Hin & Hl & Hne & Hmiss & Hq).
        exists item0.
        split; [now right|]. split; [exact Hl|]. split; [exact Hne|].
        split; [|exact Hq].
        destruct (geocode_cache s !! location item0) as [v|] eqn:Hs;
          [|reflexivity].
        apply Hsub1 in Hs. congruence.
      * rewrite length_app, Hsplit. lia.
    + intros [= <- <- <-]. split; [exact Hhead|].
      rewrite Hsplit. lia.
Qed.

(** X1.  Every request of a run of the loop is for a record of the list
    that lacks a coordinate, whose address is non-empty and was not in
    the cache the run started with; it carries that address, bare or
    followed by the country suffix.  So a record that carries both
    coordinates is never sent to the service, nor is an address the
    cache already knows. *)
Theorem requests_are_for_missing_coordinates
    (l : list rrecord) (s s' : rstate) (r : result (list rrecord))
    (t : list revent) (q : string) :
  enrich l s = (r, s', t) ->
  In q (gets t) ->
  exists item,
    In item l /\
    lacks_coords (get_latitude item) (get_longitude item) = true /\
    location item <> "" /\
    geocode_cache s !! location item = None /\
    (q = location item \/ q = (location item ++ COUNTRY_SUFFIX)%string).
Proof.
  intros Hrun Hin.
  destruct (enrich_from_asks l 1 [] s s' r t Hrun) as [Hall _].
  rewrite List.Forall_forall in Hall. now apply Hall.
Qed.

(** X2.  A run sends at most four requests for each record that lacks a
    coordinate (two attempts, each sent twice at most), however the
    service answers and however the run ends. *)
Theorem requests_are_bounded
    (l : list rrecord) (s s' : rstate) (r : result (list rrecord))
    (t : list revent) :
  enrich l s = (r, s', t) ->
  length (gets t) <= 4 * length (lacking l).
Proof.
  intros Hrun. now destruct (enrich_from_asks l 1 [] s s' r t Hrun).
Qed.

(** X3.  The cache only grows: whatever a run of the loop does and
    however it ends, every entry the cache had is still there with the
    value it had. *)
Theorem cache_entries_are_kept
    (l : list rrecord) (s s' : rstate) (r : result (list rrecord))
    (t : list revent) (address : string) (v : rcoords) :
  enrich l s = (r, s', t) ->
  geocode_cache s !! address = Some v ->
  geocode_cache s' !! address = Some v.
Proof. intros Hrun. exact (enrich_from_grows l 1 [] s s' r t Hrun address v). Qed.

End RunFacts.

(* ===================================================================== *)
(** * Enricher: what a run leaves behind                                  *)
(* ===================================================================== *)

Section RunLeaves.

Context {float : Type} `{!PyFloat float}.
Context {W : Type} `{!Service float W}.
Context `{!JsonCodec (list (record float))}.
Context `{!JsonCodec (gmap string (coords float))}.

#[local] Abbreviation lstate := (state float W).
#[local] Abbreviation lcoords := (coords float).
#[local] Abbreviation lrecord := (record float).
#[local] Abbreviation levent := (event float).

Lemma same_entry_refl (r : lrecord) : same_entry r r.
Proof. now repeat split. Qed.

Lemma enrich_item_entry (i : nat) (done : list lrecord) (item : lrecord)
    (rest : list lrecord) (s s' : lstate) (item' : lrecord)
    (t : list levent) :
  enrich_item i done item rest s = (Ok item', s', t) ->
  same_entry item item' /\ (has_coords item -> item' = item).
Proof.
  rewrite enrich_item_cases. unfold has_coords.
  destruct (lacks_coords (get_latitude item) (get_longitude item)).
  - destruct (geocode_address (location item) s) as [[[c|e] s1] t1];
      [|discriminate].
    cbv zeta. intros Heq. injection Heq as Hh _ _.
    apply handed_ok in Hh. subst item'.
    split; [now repeat split | discriminate].
  - intros Heq. injection Heq as Hh _ _.
    apply handed_ok in Hh. subst item'.
    split; [apply same_entry_refl | reflexivity].
Qed.

Lemma enrich_from_entries (todo : list lrecord) :
  forall (i : nat) (done : list lrecord) (s s' : lstate)
         (l : list lrecord) (t : list levent),
    enrich_from i done todo s = (Ok l, s', t) ->
    exists todo',
      l = done ++ todo' /\
      Forall2 (fun r r' => same_entry r r' /\ (has_coords r -> r' = r))
              todo todo'.
Proof.
  induction todo as [|item rest IH]; intros i done s s' l t.
  - simpl. intros [= <- <- <-]. exists []. rewrite app_nil_r.
    split; [reflexivity | constructor].
  - cbn [enrich_from]. unfold bind.
    destruct (enrich_item i done item rest s) as [[[item'|e] s1] t1] eqn:Hitem;
      [|discriminate].
    destruct (enrich_from (S i) (done ++ [item']) rest s1)
      as [[r2 s2] t2] eqn:Hrec.
    intros [= -> <- <-].
    destruct (IH _ _ _ _ _ _ Hrec) as (rest' & -> & Hall).
    exists (item' :: rest'). rewrite <- app_assoc. split; [reflexivity|].
    constructor; [|exact Hall].
    eapply enrich_item_entry; eauto.
Qed.

(** X4.  A run that comes to its end returns the records it was given,
    one for one and in the same order: name, thumbnail, link and address
    are as they were, and a record that had both coordinates is returned
    as it was. *)
Theorem records_keep_their_entries
    (l l' : list lrecord) (s s' : lstate) (t : list levent) :
  enrich l s = (Ok l', s', t) ->
  length l' = length l /\
  Forall2 (fun r r' => same_entry r r' /\ (has_coords r -> r' = r)) l l'.
Proof.
  intros Hrun.
  destruct (enrich_from_entries l 1 [] s s' l' t Hrun) as (todo' & -> & Hall).
  simpl. split; [|exact Hall].
  symmetry. eapply Forall2_length; eauto.
Qed.

Lemma replay_other (t : list levent) (f : files) (path : string) :
  path <> INPUT_JSON -> path <> CACHE_JSON ->
  replay t f !! path = f !! path.
Proof.
  intros Hin Hca. revert f.
  induction t as [|e t IH]; intros f; [reflexivity|].
  destruct e; simpl; rewrite IH; try reflexivity.
  - apply save_json_other. congruence.
  - apply save_json_other. congruence.
Qed.

(** X5.  A run writes [museums.json] and [geocode_cache.json] and no
    other file, however it ends. *)
Theorem other_files_are_untouched
    (l : list lrecord) (s s' : lstate) (r : result (list lrecord))
    (t : list levent) (path : string) :
  enrich l s = (r, s', t) ->
  path <> INPUT_JSON -> path <> CACHE_JSON ->
  fs s' !! path = fs s !! path.
Proof.
  intros Hrun Hin Hca.
  rewrite (blind_fs (enrich l) s s' r t (blind_enrich l) Hrun).
  now apply replay_other.
Qed.

(** A lookup leaves the cache and its file as they were, or leaves the
    file holding the cache. *)
Lemma geocode_address_file (address : string) (s s' : lstate)
    (r : result lcoords) (t : list levent) :
  geocode_address address s = (r, s', t) ->
  fs s' !! INPUT_JSON = fs s !! INPUT_JSON /\
  ((geocode_cache s' = geocode_cache s /\
    fs s' !! CACHE_JSON = fs s !! CACHE_JSON) \/ cache_synced s').
Proof.
  rewrite geocode_address_cases.
  destruct (String.eqb address ""); [intros [= <- <- <-]; auto|].
  destruct (geocode_cache s !! address); [intros [= <- <- <-]; auto|].
  destruct (_geocode_nominatim address s) as [[r1 s1] t1] eqn:H1.
  destruct (_geocode_nominatim_frame _ _ _ _ _ H1) as [Hf1 Hc1].
  destruct r1 as [c1|e1].
  2:{ intros [= <- <- <-]. rewrite Hf1, Hc1. auto. }
  destruct (is_none_pair c1).
  - destruct (_geocode_nominatim (address ++ COUNTRY_SUFFIX) s1)
      as [[r2 s2] t2] eqn:H2.
    destruct (_geocode_nominatim_frame _ _ _ _ _ H2) as [Hf2 Hc2].
    destruct r2 as [c2|e2]; intros [= <- <- <-].
    + split.
      * unfold stored. simpl. rewrite save_json_other by discriminate.
        now rewrite Hf2, Hf1.
      * right. unfold cache_synced, stored. simpl. apply save_json_lookup.
    + rewrite Hf2, Hf1, Hc2, Hc1. auto.
  - intros [= <- <- <-]. split.
    + unfold stored. simpl. rewrite save_json_other by discriminate.
      now rewrite Hf1.
    + right. unfold cache_synced, stored. simpl. apply save_json_lookup.
Qed.

Lemma enrich_item_file (i : nat) (done : list lrecord) (item : lrecord)
    (rest : list lrecord) (s s' : lstate) (r : result lrecord)
    (t : list levent) :
  enrich_item i done item rest s = (r, s', t) ->
  (geocode_cache s' = geocode_cache s /\
   fs s' !! CACHE_JSON = fs s !! CACHE_JSON) \/ cache_synced s'.
Proof.
  rewrite enrich_item_cases.
  destruct (lacks_coords (get_latitude item) (get_longitude item)).
  - destruct (geocode_address (location item) s) as [[r1 s1] t1] eqn:Hg.
    destruct (geocode_address_file _ _ _ _ _ Hg) as [_ Hfile].
    destruct r1 as [c|e]; cbv zeta; intros [= <- <- <-]; [|exact Hfile].
    unfold cache_synced in *. simpl.
    rewrite save_json_other by discriminate. exact Hfile.
  - intros [= <- <- <-]. auto.
Qed.

Lemma enrich_from_file (todo : list lrecord) :
  forall (i : nat) (done : list lrecord) (s s' : lstate)
         (r : result (list lrecord)) (t : list levent),
    enrich_from i done todo s = (r, s', t) ->
    (geocode_cache s' = geocode_cache s /\
     fs s' !! CACHE_JSON = fs s !! CACHE_JSON) \/ cache_synced s'.
Proof.
  induction todo as [|item rest IH]; intros i done s s' r t.
  - simpl. intros [= <- <- <-]. auto.
  - cbn [enrich_from]. unfold bind.
    destruct (enrich_item i done item rest s) as [[r1 s1] t1] eqn:Hitem.
    pose proof (enrich_item_file _ _ _ _ _ _ _ _ Hitem) as H1.
    destruct r1 as [item'|e]; [|intros [= <- <- <-]; exact H1].
    destruct (enrich_from (S i) (done ++ [item']) rest s1)
      as [[r2 s2] t2] eqn:Hrec.
    intros [= <- <- <-].
    destruct (IH _ _ _ _ _ _ Hrec) as [[Hc2 Hf2] | Hsync]; [|now right].
    destruct H1 as [[Hc1 Hf1] | Hsync1].
    + left. split; congruence.
    + right. unfold cache_synced in *. now rewrite Hf2, Hc2.
Qed.

(** X6.  The cache file follows the cache: when the file holds the
    cache as it is in memory before a run, it does so after the run,
    also when the run is cut short by an exception. *)
Theorem cache_file_follows_cache
    (l : list lrecord) (s s' : lstate) (r : result (list lrecord))
    (t : list levent) :
  cache_synced s ->
  enrich l s = (r, s', t) ->
  cache_synced s'.
Proof.
  intros Hsync Hrun.
  destruct (enrich_from_file l 1 [] s s' r t Hrun) as [[Hc Hf] | Hs];
    [|exact Hs].
  unfold cache_synced in *. now rewrite Hf, Hc.
Qed.

Lemma lacking_nil (l : list lrecord) :
  Forall has_coords l -> lacking l = [].
Proof.
  induction 1 as [|r l Hr Hl IH]; [reflexivity|].
  unfold lacking. simpl. unfold has_coords in Hr. now rewrite Hr.
Qed.

(** X7.  Write-through: when a run over a list with at least one record
    lacking a coordinate comes to its end, [museums.json] holds the list
    the run returns. *)
Theorem museums_file_holds_the_result
    (l l' : list lrecord) (s s' : lstate) (t : list levent) :
  lacking l <> [] ->
  enrich l s = (Ok l', s', t) ->
  fs s' !! INPUT_JSON = Some (list_byte_of_string (json_dump l')).
Proof.
  intros Hlack Hrun.
  destruct (enrich_from_first l 1 [] s s' l' t Hrun)
    as (_ & todo' & Hl & _ & _ & [(_ & Hhas & _) | Hfile]).
  - now apply lacking_nil in Hhas.
  - exact Hfile.
Qed.

(** X8.  An address is resolved once: after a lookup has returned, a
    lookup of the same address returns the same outcome without a
    request, a write or a sleep, in any later state (one whose cache
    holds what the cache held then), whatever the service would answer
    now.  This holds for a not-found outcome as for a pair. *)
Theorem lookup_is_done_once
    (address : string) (s s1 s2 : lstate) (v : lcoords) (t : list levent) :
  geocode_address address s = (Ok v, s1, t) ->
  (forall k c, geocode_cache s1 !! k = Some c ->
               geocode_cache s2 !! k = Some c) ->
  geocode_address address s2 = (Ok v, s2, []).
Proof.
  intros Hrun Hsub.
  destruct (geocode_address_grows _ _ _ _ _ Hrun) as [_ Hknown].
  apply known_noop. eapply known_grows; [exact Hsub|]. now apply Hknown.
Qed.

End RunLeaves.

(* ===================================================================== *)
(** * Enricher: markers, and [main] from the files                        *)
(* ===================================================================== *)

Section RunMain.

Context {float : Type} `{!PyFloat float}.
Context {W : Type} `{!Service float W}.
Context `{!JsonCodec (list (record float))}.
Context `{!JsonCodec (gmap string (coords float))}.

#[local] Abbreviation mstate := (state float W).
#[local] Abbreviation mcoords := (coords float).
#[local] Abbreviation mrecord := (record float).
#[local] Abbreviation mevent := (event float).

Lemma markers_app (t1 t2 : list mevent) :
  markers (t1 ++ t2) = markers t1 ++ markers t2.
Proof. apply omap_app. Qed.

Lemma _geocode_nominatim_no_marker (q : string) (s s' : mstate)
    (r : result mcoords) (t : list mevent) :
  _geocode_nominatim q s = (r, s', t) -> markers t = [].
Proof.
  rewrite _geocode_nominatim_cases.
  destruct (session_get (net s) q) as [[|r1] w1].
  - now intros [= <- <- <-].
  - destruct (status_code r1 =? 429)%Z.
    + destruct (session_get w1 q) as [o2 w2]. now intros [= <- <- <-].
    + now intros [= <- <- <-].
Qed.

Lemma geocode_address_no_marker (address : string) (s s' : mstate)
    (r : result mcoords) (t : list mevent) :
  geocode_address address s = (r, s', t) -> markers t = [].
Proof.
  rewrite geocode_address_cases.
  destruct (String.eqb address ""); [now intros [= <- <- <-]|].
  destruct (geocode_cache s !! address); [now intros [= <- <- <-]|].
  destruct (_geocode_nominatim address s) as [[r1 s1] t1] eqn:H1.
  pose proof (_geocode_nominatim_no_marker _ _ _ _ _ H1) as Hm1.
  destruct r1 as [c1|e1]; [|now intros [= <- <- <-]].
  destruct (is_none_pair c1).
  - destruct (_geocode_nominatim (address ++ COUNTRY_SUFFIX) s1)
      as [[r2 s2] t2] eqn:H2.
    pose proof (_geocode_nominatim_no_marker _ _ _ _ _ H2) as Hm2.
    destruct r2 as [c2|e2]; intros [= <- <- <-];
      rewrite !markers_app, Hm1, Hm2; reflexivity.
  - intros [= <- <- <-]. rewrite markers_app, Hm1. reflexivity.
Qed.

Lemma enrich_item_markers (i : nat) (done : list mrecord) (item : mrecord)
    (rest : list mrecord) (s s' : mstate) (item' : mrecord)
    (t : list mevent) :
  enrich_item i done item rest s = (Ok item', s', t) ->
  markers t = located i [item'].
Proof.
  rewrite enrich_item_cases.
  destruct (lacks_coords (get_latitude item) (get_longitude item)) eqn:Hl.
  - destruct (geocode_address (location item) s) as [[r1 s1] t1] eqn:Hg.
    pose proof (geocode_address_no_marker _ _ _ _ _ Hg) as Hm.
    destruct r1 as [c|e]; [|discriminate].
    cbv zeta. intros Heq. injection Heq as Hh _ <-.
    rewrite markers_app, Hm. cbn [markers omap app].
    change (located i [item'])
      with (if lacks_coords (get_latitude item') (get_longitude item')
            then [] else [(i, item')] : list (nat * mrecord)).
    destruct (handed_cases i (set_coords item c) c)
      as [(Hc & Hd) | [(_ & _ & Hd) | (Hc & _ & Hd)]];
      rewrite Hd in Hh |- *; [| discriminate |];
      injection Hh as <-;
      change (get_latitude (set_coords item c)) with (fst c);
      change (get_longitude (set_coords item c)) with (snd c);
      now rewrite Hc.
  - intros Heq. injection Heq as Hh _ <-.
    change (located i [item'])
      with (if lacks_coords (get_latitude item') (get_longitude item')
            then [] else [(i, item')] : list (nat * mrecord)).
    destruct (handed_cases i item (get_latitude item, get_longitude item))
      as [(Hc & Hd) | [(_ & _ & Hd) | (Hc & _ & Hd)]];
      rewrite Hd in Hh |- *; [| discriminate |];
      injection Hh as <-; cbn [fst snd] in Hc; now rewrite Hc.
Qed.

Lemma located_cons (i : nat) (r : mrecord) (l : list mrecord) :
  located i (r :: l) = located i [r] ++ located (S i) l.
Proof.
  simpl. now destruct (lacks_coords (get_latitude r) (get_longitude r)).
Qed.

Lemma enrich_from_markers (todo : list mrecord) :
  forall (i : nat) (done : list mrecord) (s s' : mstate)
         (l : list mrecord) (t : list mevent),
    enrich_from i done todo s = (Ok l, s', t) ->
    exists todo', l = done ++ todo' /\ markers t = located i todo'.
Proof.
  induction todo as [|item rest IH]; intros i done s s' l t.
  - simpl. intros [= <- <- <-]. exists []. now rewrite app_nil_r.
  - cbn [enrich_from]. unfold bind.
    destruct (enrich_item i done item rest s) as [[[item'|e] s1] t1] eqn:Hitem;
      [|discriminate].
    destruct (enrich_from (S i) (done ++ [item']) rest s1)
      as [[r2 s2] t2] eqn:Hrec.
    intros [= -> <- <-].
    destruct (IH _ _ _ _ _ _ Hrec) as (rest' & -> & Hm2).
    exists (item' :: rest'). rewrite <- app_assoc. split; [reflexivity|].
    rewrite markers_app, Hm2, located_cons.
    now rewrite (enrich_item_markers _ _ _ _ _ _ _ _ Hitem).
Qed.

(** X9.  The markers of a run that comes to its end are the records it
    returns that carry both coordinates, each once, in the order of the
    list, each with its position in the whole list counted from 1; a
    record left without coordinates gets no marker and stays in the
    list. *)
Theorem markers_are_the_located_records
    (l l' : list mrecord) (s s' : mstate) (t : list mevent) :
  enrich l s = (Ok l', s', t) ->
  markers t = located 1 l'.
Proof.
  intros Hrun.
  destruct (enrich_from_markers l 1 [] s s' l' t Hrun) as (todo' & -> & Hm).
  exact Hm.
Qed.

Lemma load_json_ext {A} `{!JsonCodec A} (f f' : files) (path : string)
    (default : A) :
  f' !! path = f !! path ->
  load_json f' path default = load_json f path default.
Proof. intros Heq. unfold load_json. now rewrite Heq. Qed.

Lemma load_json_round_trip {A} `{!JsonCodec A} (f : files) (path : string)
    (obj default : A) :
  round_trips obj ->
  f !! path = Some (list_byte_of_string (json_dump obj)) ->
  load_json f path default = Ok obj.
Proof.
  intros [Hutf Hload] Hf. unfold load_json.
  now rewrite Hf, Hutf, string_of_list_byte_of_string, Hload.
Qed.

(** X10.  With no records to work on, [main] reports it and stops:
    whether [museums.json] is absent, holds text that [json.load]
    rejects with its [JSONDecodeError], or holds the empty list, nothing
    is requested and nothing is written, and the cache file is not even
    read, so what it holds does not matter.  Text that the parser gives
    up on in another way is not taken for no records: on text nested
    deeper than the parser goes [main] raises [RecursionError], on a
    number with more digits than [int()] converts it raises
    [ValueError], and on bytes that are not UTF-8 it raises
    [UnicodeDecodeError], each time without the report and before
    anything else is done. *)
Theorem main_without_records (w : W) (fs0 : files) :
  ((fs0 !! INPUT_JSON = None \/
    exists bytes,
      fs0 !! INPUT_JSON = Some bytes /\ utf8_valid bytes = true /\
      (json_load (A := list mrecord) (string_of_list_byte bytes) = NotJson \/
       json_load (A := list mrecord) (string_of_list_byte bytes)
       = Parsed [])) ->
   main w fs0
   = (Ok [], {| net := w; fs := fs0; geocode_cache := ∅ |},
      [EvPrint LogNoData])) /\
  (forall bytes,
     fs0 !! INPUT_JSON = Some bytes ->
     (utf8_valid bytes = false ->
      main w fs0
      = (Raise UnicodeDecodeError,
         {| net := w; fs := fs0; geocode_cache := ∅ |}, [])) /\
     (utf8_valid bytes = true ->
      json_load (A := list mrecord) (string_of_list_byte bytes) = TooDeep ->
      main w fs0
      = (Raise RecursionError,
         {| net := w; fs := fs0; geocode_cache := ∅ |}, [])) /\
     (utf8_valid bytes = true ->
      json_load (A := list mrecord) (string_of_list_byte bytes)
      = TooManyDigits ->
      main w fs0
      = (Raise ValueError,
         {| net := w; fs := fs0; geocode_cache := ∅ |}, []))).
Proof.
  split.
  - intros Hfile.
    assert (Hload : load_json fs0 INPUT_JSON ([] : list mrecord) = Ok []).
    { destruct Hfile as [Habs | (bytes & Hf & Hutf & [Hbad | Hempty])].
      - now apply load_json_absent.
      - now apply (load_json_not_json _ _ _ bytes).
      - now apply (load_json_parsed _ _ _ _ bytes). }
    unfold main. now rewrite Hload.
  - intros bytes Hf. unfold main, load_json. rewrite Hf.
    split; [|split].
    + now intros ->.
    + now intros -> ->.
    + now intros -> ->.
Qed.

(** X11.  Restarting [main]: when a run of [main] comes to its end, and
    the records and the cache it leaves read back from their files as
    they were written, a second run of [main] on the files and the
    service state the first one left returns the same records, leaves
    the same state and sends no request. *)
Theorem main_twice (w : W) (fs0 : files) (l1 : list mrecord)
    (s1 : mstate) (t1 : list mevent) :
  main w fs0 = (Ok l1, s1, t1) ->
  round_trips l1 ->
  round_trips (geocode_cache s1) ->
  exists t2,
    main (net s1) (fs s1) = (Ok l1, s1, t2) /\ gets t2 = [].
Proof.
  unfold main at 1.
  destruct (load_json fs0 INPUT_JSON []) as [[|item rest]|e] eqn:Hin;
    [| |discriminate].
  { intros [= <- <- <-] _ _. simpl. unfold main. rewrite Hin.
    now exists [EvPrint LogNoData]. }
  destruct (load_json fs0 CACHE_JSON ∅) as [cache|e] eqn:Hca; [|discriminate].
  set (s0 := {| net := w; fs := fs0; geocode_cache := cache |}).
  unfold bind at 1.
  destruct (enrich (item :: rest) s0) as [[[l|e] s'] t] eqn:Hrun;
    [|discriminate].
  simpl. intros [= -> -> <-] Hrl Hrc.
  destruct (enrich_from_first _ 1 [] s0 s1 l1 t Hrun)
    as (_ & todo' & Hl & Hset & Hacc & Hfile).
  simpl in Hl. subst todo'.
  destruct (enrich_from_entries _ 1 [] s0 s1 l1 t Hrun)
    as (todo' & Hl & Hall).
  simpl in Hl. subst todo'.
  assert (Hin1 : load_json (fs s1) INPUT_JSON [] = Ok l1).
  { destruct Hfile as [(-> & _ & ->) | Hfile]; [exact Hin|].
    now apply load_json_round_trip. }
  assert (Hca1 : load_json (fs s1) CACHE_JSON ∅ = Ok (geocode_cache s1)).
  { destruct (enrich_from_file _ 1 [] s0 s1 (Ok l1) t Hrun)
      as [[Hc Hf] | Hsync].
    - rewrite (load_json_ext fs0 (fs s1)) by exact Hf.
      now rewrite Hca, Hc.
    - now apply load_json_round_trip. }
  destruct (enrich_from_second l1 1 [] s1 Hset Hacc)
    as (t2 & Hrun2 & _ & Hg2).
  { destruct Hfile as [(-> & Hhas & _) | Hfile]; [now left | now right]. }
  unfold main. rewrite Hin1, Hca1.
  destruct l1 as [|item1 rest1]; [inversion Hall|].
  replace {| net := net s1; fs := fs s1; geocode_cache := geocode_cache s1 |}
    with s1 by now destruct s1.
  unfold bind. fold (enrich (item1 :: rest1)) in Hrun2. rewrite Hrun2.
  simpl. eexists. split; [reflexivity|].
  rewrite gets_app, Hg2. reflexivity.
Qed.

End RunMain.

(* ===================================================================== *)
(** * PersistedStore: saving and loading                                  *)
(* ===================================================================== *)

(** X12.  What [save_json] writes, [load_json] reads back, provided the
    value round-trips through [json.dump] and [json.load]; and saving
    under one path changes what is loaded from no other path. *)
Theorem save_then_load {A B : Type} `{!JsonCodec A} `{!JsonCodec B}
    (f : files) (path path' : string) (obj default : A) (default' : B) :
  round_trips obj ->
  path' <> path ->
  load_json (save_json f path obj) path default = Ok obj /\
  load_json (save_json f path obj) path' default'
  = load_json f path' default'.
Proof.
  intros Hrt Hne. split.
  - apply load_json_round_trip; [exact Hrt | apply save_json_lookup].
  - apply load_json_ext. apply save_json_other. congruence.
Qed.

(* ===================================================================== *)
(** * One attempt, once more                                              *)
(* ===================================================================== *)

Section AttemptFacts.

Context {float : Type} `{!PyFloat float}.
Context {W : Type} `{!Service float W}.

(** X13.  A resolution attempt writes no file and leaves the cache as
    it is.  It sends its query once and does not sleep, unless the first
    answer has status 429: then, and only then, it sleeps once and sends
    the query a second time. *)
Theorem attempt_sends_one_or_two_requests
    (q : string) (s s' : state float W) (r : result (coords float))
    (t : list (event float)) :
  _geocode_nominatim q s = (r, s', t) ->
  fs s' = fs s /\ geocode_cache s' = geocode_cache s /\
  ((exists o, t = [EvGet q o] /\
              forall resp, o = GetResponse resp -> status_code resp <> 429%Z) \/
   (exists resp o2,
      status_code resp = 429%Z /\
      t = [EvGet q (GetResponse resp); EvSleep RETRY_BACKOFF_SECONDS;
           EvGet q o2])).
Proof.
  intros Hrun.
  destruct (_geocode_nominatim_frame _ _ _ _ _ Hrun) as [Hf Hc].
  split; [exact Hf|]. split; [exact Hc|].
  rewrite _geocode_nominatim_cases in Hrun.
  destruct (session_get (net s) q) as [[|r1] w1].
  - injection Hrun as _ _ <-. left. exists GetRaises.
    split; [reflexivity | discriminate].
  - destruct (status_code r1 =? 429)%Z eqn:Hst.
    + destruct (session_get w1 q) as [o2 w2]. injection Hrun as _ _ <-.
      right. exists r1, o2. split; [now apply Z.eqb_eq | reflexivity].
    + injection Hrun as _ _ <-. left. exists (GetResponse r1).
      split; [reflexivity|]. intros resp [= <-]. now apply Z.eqb_neq.
Qed.

End AttemptFacts.

(* ===================================================================== *)
(** * Harvester: the loop, the cards, the file                            *)
(* ===================================================================== *)

Section HarvestFacts.

Context {float : Type}.
Context `{!JsonCodec (list (record float))}.

#[local] Abbreviation hrecord := (record float).
#[local] Abbreviation hsevent := (event float).
#[local] Abbreviation hstate := (harvest_state (float := float)).

Lemma load_more_goes_on (browser : nat -> attempt) (k : nat) :
  forall (n : nat) (t : list hsevent),
    (forall i, i < k -> goes_on (browser (n + i)) = true) ->
    forall fuel,
      load_more (k + fuel) browser n t
      = load_more fuel browser (n + k) (t ++ passes browser n k).
Proof.
  induction k as [|k IH]; intros n t Hon fuel.
  - simpl. now rewrite Nat.add_0_r, app_nil_r.
  - specialize (Hon 0 ltac:(lia)) as H0. rewrite Nat.add_0_r in H0.
    assert (Hrest : forall i, i < k -> goes_on (browser (S n + i)) = true).
    { intros i Hi. replace (S n + i) with (n + S i) by lia. apply Hon. lia. }
    simpl. destruct (browser n); try discriminate; simpl;
      rewrite IH by exact Hrest; rewrite <- app_assoc; simpl;
      f_equal; lia.
Qed.

Lemma load_more_still_running (browser : nat -> attempt) (fuel : nat) :
  forall (n : nat) (t : list hsevent),
    (forall i, i < fuel -> goes_on (browser (n + i)) = true) ->
    load_more fuel browser n t = None.
Proof.
  induction fuel as [|fuel IH]; intros n t Hon; [reflexivity|].
  specialize (Hon 0 ltac:(lia)) as H0. rewrite Nat.add_0_r in H0.
  assert (Hrest : forall i, i < fuel -> goes_on (browser (S n + i)) = true).
  { intros i Hi. replace (S n + i) with (n + S i) by lia. apply Hon. lia. }
  simpl. destruct (browser n); try discriminate; now apply IH.
Qed.

(** X14.  The "Laad meer" loop ends at the first pass that finds the
    button gone or meets a driver error, and not before: clicks and
    obstructed clicks in any mix keep it going, each click followed by a
    three-second wait and each obstructed click by a two-second one.  A
    missing button ends it normally; any other driver error ends the
    script with that error. *)
Theorem load_more_ends_at_first_stop
    (browser : nat -> attempt) (k : nat) (t : list hsevent) :
  (forall i, i < k -> goes_on (browser i) = true) ->
  goes_on (browser k) = false ->
  (forall fuel, k < fuel ->
     load_more fuel browser 0 t
     = Some (ending (browser k) (t ++ passes browser 0 k))) /\
  (forall fuel, fuel <= k -> load_more fuel browser 0 t = None).
Proof.
  intros Hon Hstop. split.
  - intros fuel Hlt. replace fuel with (k + S (fuel - S k)) by lia.
    rewrite load_more_goes_on by (simpl; exact Hon).
    simpl. destruct (browser k); try discriminate; reflexivity.
  - intros fuel Hle. apply load_more_still_running.
    intros i Hi. simpl. apply Hon. lia.
Qed.


Lemma scrape_card_file (web : string -> option page) (n i : nat) (c : card)
    (s : hstate) :
  (forall path, path <> output_file ->
     h_fs (scrape_card web n i c s) !! path = h_fs s !! path) /\
  match extract (float := float) web c with
  | (Ok r, _) =>
      h_fs (scrape_card web n i c s) !! output_file
      = Some (list_byte_of_string
                (json_dump (museums (scrape_card web n i c s))))
  | (Raise _, _) => scrape_card web n i c s
                    = {| h_fs := h_fs s; museums := museums s;
                         h_trace := h_trace (scrape_card web n i c s) |}
  end.
Proof.
  unfold scrape_card.
  destruct (extract web c) as [[r|e] evs]; simpl.
  - split; [|apply save_json_lookup].
    intros path Hne. apply save_json_other. congruence.
  - split; [auto | reflexivity].
Qed.

Lemma extracted_cons (web : string -> option page) (c : card)
    (cards : list card) :
  extracted (float := float) web (c :: cards)
  = match extract web c with
    | (Ok r, _) => r :: extracted web cards
    | (Raise _, _) => extracted web cards
    end.
Proof.
  unfold extracted. simpl. now destruct (extract web c) as [[r|e] evs].
Qed.

Lemma scrape_cards_none (web : string -> option page) (n : nat)
    (cards : list card) :
  forall (i : nat) (s : hstate),
    extracted (float := float) web cards = [] ->
    h_fs (scrape_cards web n i cards s) = h_fs s /\
    museums (scrape_cards web n i cards s) = museums s.
Proof.
  induction cards as [|c cards IH]; intros i s Hnone; [now split|].
  cbn [scrape_cards]. rewrite extracted_cons in Hnone.
  pose proof (scrape_card_file web n i c s) as [_ Hcard].
  destruct (extract web c) as [[r|e] evs]; [discriminate|].
  destruct (IH (S i) (scrape_card web n i c s) Hnone) as [Hf Hm].
  rewrite Hf, Hm, Hcard. now split.
Qed.

Lemma scrape_cards_file (web : string -> option page) (n : nat)
    (cards : list card) :
  forall (i : nat) (s : hstate),
    (forall path, path <> output_file ->
       h_fs (scrape_cards web n i cards s) !! path = h_fs s !! path) /\
    (extracted (float := float) web cards <> [] ->
     h_fs (scrape_cards web n i cards s) !! output_file
     = Some (list_byte_of_string
               (json_dump (museums (scrape_cards web n i cards s))))).
Proof.
  induction cards as [|c cards IH]; intros i s.
  - simpl. split; [auto | congruence].
  - cbn [scrape_cards].
    destruct (IH (S i) (scrape_card web n i c s)) as [Hother Hfile].
    destruct (scrape_card_file web n i c s) as [Hother1 Hfile1].
    split.
    + intros path Hne. rewrite Hother by exact Hne. now apply Hother1.
    + intros Hsome.
      destruct (extracted (float := float) web cards) as [|r0 rest0] eqn:Hrest.
      * rewrite extracted_cons, Hrest in Hsome.
        destruct (scrape_cards_none web n cards (S i)
                    (scrape_card web n i c s) Hrest) as [Hf Hm].
        rewrite Hf, Hm.
        destruct (extract web c) as [[r|e] evs]; [exact Hfile1 | congruence].
      * apply Hfile. congruence.
Qed.


(** X18.  Harvesting again appends again: when a harvest that extracted
    something has ended and its list reads back from the file as it was
    written, a second harvest of the same cards on the files it left
    ends with the first list followed by the same extracted records once
    more.  Nothing is merged or left out because it is already there. *)
Theorem harvest_again_duplicates
    (web : string -> option page) (cards : list card) (f : files)
    (t t' : list hsevent) (s1 : hstate) :
  harvest web cards f t = Ok s1 ->
  extracted (float := float) web cards <> [] ->
  round_trips (museums s1) ->
  exists s2,
    harvest web cards (h_fs s1) t' = Ok s2 /\
    museums s2 = museums s1 ++ extracted web cards.
Proof.
  unfold harvest at 1.
  destruct (resume f) as [existing|e] eqn:Hres; [|discriminate].
  intros [= <-] Hsome [Hutf Hload]. simpl in *.
  destruct (scrape_cards_file web (length cards) cards 1
              {| h_fs := f; museums := existing;
                 h_trace := t ++ [EvPrint (LogFound (length cards))] |})
    as [_ Hfile].
  specialize (Hfile Hsome).
  unfold harvest, resume. rewrite Hfile, Hutf.
  rewrite string_of_list_byte_of_string, Hload.
  eexists. split; [reflexivity|]. simpl.
  now rewrite scrape_cards_museums.
Qed.

End HarvestFacts.

(* ===================================================================== *)
(** * The popup: what the record's text cannot do                         *)
(* ===================================================================== *)

Lemma count_char_app (c : ascii) (s1 s2 : string) :
  count_char c (s1 ++ s2) = count_char c s1 + count_char c s2.
Proof.
  induction s1 as [|ch s1 IH]; [reflexivity|].
  simpl. rewrite IH. lia.
Qed.

Lemma count_char_concat (c : ascii) (l l' : list string) :
  Forall2 (fun a b => count_char c a = count_char c b) l l' ->
  count_char c (String.concat "" l) = count_char c (String.concat "" l').
Proof.
  induction 1 as [|a b l l' Hab Hall IH]; [reflexivity|].
  destruct Hall as [|a2 b2 l l' Hab2 Hall].
  - exact Hab.
  - change (String.concat "" (a :: a2 :: l))
      with (a ++ "" ++ String.concat "" (a2 :: l))%string.
    change (String.concat "" (b :: b2 :: l'))
      with (b ++ "" ++ String.concat "" (b2 :: l'))%string.
    rewrite !count_char_app, Hab, IH. reflexivity.
Qed.

Lemma is_markup_cases (c : ascii) :
  is_markup c = true ->
  c = "<"%char \/ c = ">"%char \/ c = dq_char \/ c = "'"%char.
Proof.
  unfold is_markup. intros Hm.
  repeat (apply orb_prop in Hm as [Hm | Hm]);
    apply Ascii.eqb_eq in Hm; auto.
Qed.

Lemma count_escape_char (c ch : ascii) :
  is_markup c = true -> count_char c (escape_char ch) = 0.
Proof.
  intros Hm. unfold escape_char.
  destruct (Ascii.eqb ch "&") eqn:H1;
    [apply is_markup_cases in Hm as [-> | [-> | [-> | ->]]]; reflexivity|].
  destruct (Ascii.eqb ch "<") eqn:H2;
    [apply is_markup_cases in Hm as [-> | [-> | [-> | ->]]]; reflexivity|].
  destruct (Ascii.eqb ch ">") eqn:H3;
    [apply is_markup_cases in Hm as [-> | [-> | [-> | ->]]]; reflexivity|].
  destruct (Ascii.eqb ch dq_char) eqn:H4;
    [apply is_markup_cases in Hm as [-> | [-> | [-> | ->]]]; reflexivity|].
  destruct (Ascii.eqb ch "'") eqn:H5;
    [apply is_markup_cases in Hm as [-> | [-> | [-> | ->]]]; reflexivity|].
  cbn [count_char].
  apply is_markup_cases in Hm as [-> | [-> | [-> | ->]]];
    rewrite Ascii.eqb_sym; rewrite ?H2, ?H3, ?H4, ?H5; reflexivity.
Qed.

Lemma count_html_escape (c : ascii) (s : string) :
  is_markup c = true -> count_char c (html_escape s) = 0.
Proof.
  intros Hm. induction s as [|ch s IH]; [reflexivity|].
  simpl. now rewrite count_char_app, count_escape_char, IH.
Qed.

Lemma count_quoted_escape (c : ascii) (s s' : string) :
  is_markup c = true ->
  count_char c (quoted (html_escape s))
  = count_char c (quoted (html_escape s')).
Proof.
  intros Hm. unfold quoted.
  now rewrite !count_char_app, !count_html_escape.
Qed.

Lemma Forall2_same_count (c : ascii) (l : list string) :
  Forall2 (fun a b => count_char c a = count_char c b) l l.
Proof. induction l; constructor; auto. Qed.

Lemma link_html_count (c : ascii) (link : string) :
  is_markup c = true ->
  Forall2 (fun a b => count_char c a = count_char c b)
    (link_html link) (link_html (if String.eqb link "" then "" else "x")).
Proof.
  intros Hm. unfold link_html.
  destruct (String.eqb link ""); cbn [String.eqb]; [constructor|].
  constructor; [reflexivity|].
  constructor; [now apply count_quoted_escape|].
  apply Forall2_same_count.
Qed.

Lemma img_html_count (c : ascii) (thumb : option string) :
  is_markup c = true ->
  Forall2 (fun a b => count_char c a = count_char c b)
    (img_html thumb)
    (img_html match thumb with
              | Some src => if String.eqb src "" then None else Some "x"
              | None => None
              end).
Proof.
  intros Hm. unfold img_html.
  destruct thumb as [src|]; [|constructor].
  destruct (String.eqb src ""); cbn [String.eqb]; [constructor|].
  do 3 (constructor; [reflexivity|]).
  constructor; [now apply count_quoted_escape|].
  apply Forall2_same_count.
Qed.

Section PopupFacts.

Context {float : Type}.

(** X19.  The text of a record adds no markup to its popup: whatever
    the name, the address, the link and the thumbnail address hold, the
    popup has as many [<], [>], double quotes and single quotes as the
    popup of the same record with its text taken out.  So no record can
    open or close a tag or an attribute value. *)
Theorem popup_text_adds_no_markup
    (item : record float) (index : nat) (c : ascii) :
  is_markup c = true ->
  count_char c (build_popup_html item index)
  = count_char c (build_popup_html (textless item) index).
Proof.
  intros Hm. unfold build_popup_html. apply count_char_concat.
  unfold popup_parts, textless. cbn [name location link thumbnail].
  repeat (apply Forall2_app);
    try apply Forall2_same_count;
    try (now apply link_html_count);
    try (now apply img_html_count).
  do 10 (constructor; [reflexivity|]).
  constructor; [now rewrite !count_html_escape|].
  do 5 (constructor; [reflexivity|]).
  constructor; [now rewrite !count_html_escape|].
  apply Forall2_same_count.
Qed.

End PopupFacts.

Lemma str_of_nat_inj (i j : nat) : str_of_nat i = str_of_nat j -> i = j.
Proof.
  unfold str_of_nat. intros Heq.
  assert (Hu : Nat.to_uint i = Nat.to_uint j).
  { pose proof (NilEmpty.usu (Nat.to_uint i)) as Hi.
    pose proof (NilEmpty.usu (Nat.to_uint j)) as Hj.
    rewrite Heq in Hi. rewrite Hi in Hj. now injection Hj. }
  rewrite <- (Unsigned.of_to i), <- (Unsigned.of_to j). now rewrite Hu.
Qed.

Lemma museum_id_inj (i j : nat) : museum_id i = museum_id j -> i = j.
Proof.
  unfold museum_id. intros Heq. apply str_of_nat_inj.
  simpl in Heq. now injection Heq.
Qed.

Section MarkerIds.

Context {float : Type} `{!PyFloat float}.
Context {W : Type} `{!Service float W}.
Context `{!JsonCodec (list (record float))}.
Context `{!JsonCodec (gmap string (coords float))}.

#[local] Abbreviation istate := (state float W).
#[local] Abbreviation irecord := (record float).
#[local] Abbreviation ievent := (event float).

(** One pass of the loop hands over no marker or one, at its own
    position, however it ends. *)
Lemma enrich_item_position (i : nat) (done : list irecord) (item : irecord)
    (rest : list irecord) (s s' : istate) (r : result irecord)
    (t : list ievent) :
  enrich_item i done item rest s = (r, s', t) ->
  map fst (markers t) = [] \/ map fst (markers t) = [i].
Proof.
  assert (Hh : forall (r0 : irecord) c,
            map fst (markers (snd (handed i r0 c))) = [] \/
            map fst (markers (snd (handed i r0 c))) = [i]).
  { intros r0 c.
    destruct (handed_cases i r0 c) as [(_ & ->) | [(_ & _ & ->) | (_ & _ & ->)]];
      [now left | now left | now right]. }
  rewrite enrich_item_cases.
  destruct (lacks_coords (get_latitude item) (get_longitude item)).
  - destruct (geocode_address (location item) s) as [[r1 s1] t1] eqn:Hg.
    pose proof (geocode_address_no_marker _ _ _ _ _ Hg) as Hm.
    destruct r1 as [c|e]; cbv zeta; intros [= <- <- <-].
    + rewrite markers_app, Hm. apply Hh.
    + rewrite Hm. now left.
  - intros [= <- <- <-]. apply Hh.
Qed.

(** The positions of the markers of the loop started at [i] are all
    different, and none is below [i]. *)
Lemma enrich_from_positions (todo : list irecord) :
  forall (i : nat) (done : list irecord) (s s' : istate)
         (r : result (list irecord)) (t : list ievent),
    enrich_from i done todo s = (r, s', t) ->
    Forall (fun p => i <= p) (map fst (markers t)) /\
    List.NoDup (map fst (markers t)).
Proof.
  induction todo as [|item rest IH]; intros i done s s' r t.
  - simpl. intros [= <- <- <-]. split; constructor.
  - cbn [enrich_from]. unfold bind.
    destruct (enrich_item i done item rest s) as [[r1 s1] t1] eqn:Hitem.
    pose proof (enrich_item_position _ _ _ _ _ _ _ _ Hitem) as H1.
    destruct r1 as [item'|e].
    + destruct (enrich_from (S i) (done ++ [item']) rest s1)
        as [[r2 s2] t2] eqn:Hrec.
      destruct (IH _ _ _ _ _ _ Hrec) as [Hge Hnd].
      intros [= <- <- <-]. rewrite markers_app, List.map_app.
      assert (Hge' : Forall (fun p => i <= p) (map fst (markers t2))).
      { eapply List.Forall_impl; [|exact Hge]. simpl. intros p Hp. lia. }
      destruct H1 as [-> | ->]; simpl; [now split|].
      split; [constructor; [lia | exact Hge']|].
      constructor; [|exact Hnd].
      intros Hin. rewrite List.Forall_forall in Hge. apply Hge in Hin. lia.
    + intros [= <- <- <-]. destruct H1 as [-> | ->]; split;
        repeat constructor. intros [].
Qed.

(** X20.  No two markers of a run share a popup id: the ids
    [museum_<position>] that [build_popup_html] writes into the popups
    of the markers handed over during a run of the loop, over whatever
    list and however the run ends, are all different.  So no two popups
    of a map share the key under which the page keeps "visited" and the
    review. *)
Theorem popup_ids_are_distinct
    (l : list irecord) (s s' : istate) (r : result (list irecord))
    (t : list ievent) :
  enrich l s = (r, s', t) ->
  List.NoDup (map (fun m => museum_id (fst m)) (markers t)).
Proof.
  intros Hrun.
  destruct (enrich_from_positions l 1 [] s s' r t Hrun) as [_ Hnd].
  revert Hnd. generalize (markers t). intros ms.
  induction ms as [|m ms IH]; simpl; intros Hnd; [constructor|].
  inversion Hnd as [|x xs Hnotin Hnd' Heq]; subst.
  constructor; [|now apply IH].
  intros Hin. apply Hnotin.
  apply List.in_map_iff in Hin as (m' & Hid & Hin').
  apply museum_id_inj in Hid. rewrite <- Hid.
  now apply List.in_map.
Qed.

End MarkerIds.

(* ===================================================================== *)
(** * The further properties at work on the concrete world                *)
(* ===================================================================== *)

Example html_escape_sample :
  html_escape "<b>Tom & Jerry's</b>" = "&lt;b&gt;Tom &amp; Jerry&#x27;s&lt;/b&gt;".
Proof. reflexivity. Qed.

Example museum_id_sample : museum_id 12 = "museum_12".
Proof. reflexivity. Qed.

Example popup_counts_sample :
  count_char "<" (build_popup_html tricky_museum 3) = 19 /\
  count_char ">" (build_popup_html tricky_museum 3) = 19 /\
  count_char "<" (build_popup_html a_museum 3) = 16.
Proof. vm_compute. repeat split. Qed.

Lemma requests_are_for_missing_coordinates_witness :
  exists item : record Q,
    In item [a_museum] /\
    lacks_coords (get_latitude item) (get_longitude item) = true /\
    location item <> "" /\
    (∅ : gmap string (coords Q)) !! location item = None /\
    ("Main St 1" = location item
     \/ "Main St 1" = (location item ++ COUNTRY_SUFFIX)%string).
Proof.
  apply (requests_are_for_missing_coordinates [a_museum]
           (empty_state [place "52.1" "5.2"]) (snd (fst first_run))
           (fst (fst first_run)) (snd first_run) "Main St 1").
  - vm_compute. reflexivity.
  - vm_compute. left. reflexivity.
Defined.

Lemma requests_are_bounded_witness :
  length (gets (snd first_run)) <= 4 * length (lacking [a_museum]).
Proof.
  apply (requests_are_bounded [a_museum] (empty_state [place "52.1" "5.2"])
           (snd (fst first_run)) (fst (fst first_run)) (snd first_run)).
  vm_compute. reflexivity.
Defined.

Lemma cache_entries_are_kept_witness :
  geocode_cache (snd (fst (enrich [a_museum] warm_state))) !! "Main St 1"
  = Some (Some 52.1%Q, Some 5.2%Q).
Proof.
  apply (cache_entries_are_kept [a_museum] warm_state
           (snd (fst (enrich [a_museum] warm_state)))
           (fst (fst (enrich [a_museum] warm_state)))
           (snd (enrich [a_museum] warm_state))).
  - vm_compute. reflexivity.
  - vm_compute. reflexivity.
Defined.

Lemma records_keep_their_entries_witness :
  length [found_museum] = length [a_museum] /\
  Forall2 (fun r r' => same_entry r r' /\ (has_coords r -> r' = r))
          [a_museum] [found_museum].
Proof.
  apply (records_keep_their_entries [a_museum] [found_museum]
           (empty_state [place "52.1" "5.2"]) (snd (fst first_run))
           (snd first_run)).
  vm_compute. reflexivity.
Defined.

Lemma other_files_are_untouched_witness :
  fs (snd (fst first_run)) !! "notes.txt"
  = fs (empty_state [place "52.1" "5.2"]) !! "notes.txt".
Proof.
  apply (other_files_are_untouched [a_museum]
           (empty_state [place "52.1" "5.2"]) (snd (fst first_run))
           (fst (fst first_run)) (snd first_run) "notes.txt").
  - vm_compute. reflexivity.
  - discriminate.
  - discriminate.
Defined.

Lemma cache_file_follows_cache_witness :
  cache_synced (snd (fst (enrich [a_museum] synced_state))).
Proof.
  apply (cache_file_follows_cache [a_museum] synced_state
           (snd (fst (enrich [a_museum] synced_state)))
           (fst (fst (enrich [a_museum] synced_state)))
           (snd (enrich [a_museum] synced_state))).
  - vm_compute. reflexivity.
  - vm_compute. reflexivity.
Defined.

Lemma museums_file_holds_the_result_witness :
  fs (snd (fst first_run)) !! INPUT_JSON
  = Some (list_byte_of_string (json_dump [found_museum])).
Proof.
  apply (museums_file_holds_the_result [a_museum] [found_museum]
           (empty_state [place "52.1" "5.2"]) (snd (fst first_run))
           (snd first_run)).
  - discriminate.
  - vm_compute. reflexivity.
Defined.

Lemma lookup_is_done_once_witness :
  geocode_address "Main St 1" (snd (fst unfound_lookup))
  = (Ok (None, None), snd (fst unfound_lookup), []).
Proof.
  apply (lookup_is_done_once "Main St 1" (empty_state [no_match; no_match])
           (snd (fst unfound_lookup)) (snd (fst unfound_lookup))
           (None, None) (snd unfound_lookup)).
  - vm_compute. reflexivity.
  - auto.
Defined.

Lemma markers_are_the_located_records_witness :
  markers (snd first_run) = located 1 [found_museum].
Proof.
  apply (markers_are_the_located_records [a_museum] [found_museum]
           (empty_state [place "52.1" "5.2"]) (snd (fst first_run))).
  vm_compute. reflexivity.
Defined.

Lemma main_without_records_witness :
  main (W := list (get_outcome Q)) [place "52.1" "5.2"] files_no_records
  = (Ok [],
     {| net := [place "52.1" "5.2"]; fs := files_no_records;
        geocode_cache := ∅ |},
     [EvPrint LogNoData]).
Proof.
  apply (proj1 (main_without_records (float := Q) (W := list (get_outcome Q))
                  [place "52.1" "5.2"] files_no_records)).
  right. exists (list_byte_of_string "{oops").
  split; [vm_compute; reflexivity|].
  split; [vm_compute; reflexivity|].
  left. vm_compute. reflexivity.
Defined.

Lemma main_twice_witness :
  exists t2,
    main (JsonCodec0 := found_codec)
      (net (snd (fst restart_run))) (fs (snd (fst restart_run)))
    = (Ok [found_museum], snd (fst restart_run), t2) /\
    gets t2 = [].
Proof.
  apply (main_twice (JsonCodec0 := found_codec)
           [place "52.1" "5.2"] files_first [found_museum]
           (snd (fst restart_run)) (snd restart_run)).
  - vm_compute. reflexivity.
  - split; vm_compute; reflexivity.
  - split; vm_compute; reflexivity.
Defined.

Lemma save_then_load_witness :
  load_json
    (save_json ∅ CACHE_JSON
       ({["Main St 1" := (Some 52.1%Q, Some 5.2%Q)]} : gmap string (coords Q)))
    CACHE_JSON (∅ : gmap string (coords Q))
  = Ok {["Main St 1" := (Some 52.1%Q, Some 5.2%Q)]} /\
  load_json
    (save_json ∅ CACHE_JSON
       ({["Main St 1" := (Some 52.1%Q, Some 5.2%Q)]} : gmap string (coords Q)))
    INPUT_JSON ([] : list (record Q))
  = load_json ∅ INPUT_JSON [].
Proof.
  apply (save_then_load (A := gmap string (coords Q)) (B := list (record Q))).
  - split; vm_compute; reflexivity.
  - discriminate.
Defined.

Lemma attempt_sends_one_or_two_requests_witness :
  fs (snd (fst (_geocode_nominatim "Main St 1"
                  (empty_state [throttled; place "52.1" "5.2"])))) = ∅.
Proof.
  apply (attempt_sends_one_or_two_requests "Main St 1"
           (empty_state [throttled; place "52.1" "5.2"])
           (snd (fst (_geocode_nominatim "Main St 1"
                        (empty_state [throttled; place "52.1" "5.2"]))))
           (fst (fst (_geocode_nominatim "Main St 1"
                        (empty_state [throttled; place "52.1" "5.2"]))))
           (snd (_geocode_nominatim "Main St 1"
                   (empty_state [throttled; place "52.1" "5.2"])))).
  vm_compute. reflexivity.
Defined.

Lemma load_more_ends_at_first_stop_witness :
  (forall fuel, 2 < fuel ->
     load_more (float := Q) fuel failing_browser 0 []
     = Some (ending (failing_browser 2) ([] ++ passes failing_browser 0 2))) /\
  (forall fuel, fuel <= 2 ->
     load_more (float := Q) fuel failing_browser 0 [] = None).
Proof.
  apply (load_more_ends_at_first_stop (float := Q) failing_browser 2 []).
  - intros i Hi. destruct i as [|[|i]]; [reflexivity | reflexivity | lia].
  - reflexivity.
Defined.



Lemma harvest_again_duplicates_witness :
  exists s2,
    harvest (JsonCodec0 := harvest_codec) bare_site [plain_card]
      (h_fs first_harvest_state) []
    = Ok s2 /\
    museums s2
    = museums first_harvest_state ++ extracted bare_site [plain_card].
Proof.
  apply (harvest_again_duplicates (JsonCodec0 := harvest_codec)
           bare_site [plain_card] ∅ [] [] first_harvest_state).
  - vm_compute. reflexivity.
  - vm_compute. discriminate.
  - split; vm_compute; reflexivity.
Defined.

Example harvest_again_sample :
  match harvest (JsonCodec0 := harvest_codec) bare_site [plain_card]
          (h_fs first_harvest_state) [] with
  | Ok s2 => museums s2 = [unknown_museum; unknown_museum]
  | Raise _ => False
  end.
Proof. vm_compute. reflexivity. Qed.

Lemma popup_text_adds_no_markup_witness :
  count_char "<" (build_popup_html tricky_museum 3)
  = count_char "<" (build_popup_html (textless tricky_museum) 3).
Proof.
  apply (popup_text_adds_no_markup tricky_museum 3 "<"%char).
  reflexivity.
Defined.

Lemma popup_ids_are_distinct_witness :
  map (fun m => museum_id (fst m)) (markers (snd marked_run))
  = ["museum_1"; "museum_3"] /\
  List.NoDup (map (fun m => museum_id (fst m)) (markers (snd marked_run))).
Proof.
  split; [vm_compute; reflexivity|].
  apply (popup_ids_are_distinct [found_museum; a_museum; b_museum]
           (empty_state []) (snd (fst marked_run)) (fst (fst marked_run))
           (snd marked_run)).
  vm_compute. reflexivity.
Defined.
